(** * Maven dependency-tree parser (semdep/parsers/pom_tree.py)

    A shallow embedding of the parser-combinator grammar [pom_tree] and of
    the entry point [parse_pom_tree], followed by the properties claimed for
    them: what the coordinate extractor keeps, how depth decides
    transitivity, line numbers, record count and order, trailing newlines,
    blank lines and the silent-empty-on-failure policy. *)

From Stdlib Require Import Ascii String List Arith Bool Lia.
Import ListNotations.
Open Scope list_scope.

(** ** Text *)

(** Python [str] values are lists of characters. *)
Definition text : Type := list ascii.

(** A Python string literal. *)
Definition lit (s : string) : text := list_ascii_of_string s.

(** The line feed, Python's ["\n"]. *)
Definition nl : ascii := ascii_of_nat 10.

Definition colon : ascii := ":"%char.

Definition is_nl (c : ascii) : bool := Ascii.eqb c nl.

Definition not_nl (c : ascii) : bool := negb (is_nl c).

(** [text_in c s]: the character [c] is one of the characters [s]. *)
Definition text_in (c : ascii) (s : text) : bool := existsb (Ascii.eqb c) s.

(** The longest prefix whose characters all satisfy [keep], and what follows
    it: the match of a regular expression [[...]*] at the head of [t]. *)
Fixpoint span (keep : ascii -> bool) (t : text) : text * text :=
  match t with
  | [] => ([], [])
  | a :: t' =>
      if keep a
      then let (x, y) := span keep t' in (a :: x, y)
      else ([], t)
  end.

(** [strip_prefix s t] is what follows [s] in [t] when [t] starts with [s]. *)
Fixpoint strip_prefix (s t : text) : option text :=
  match s, t with
  | [], _ => Some t
  | a :: s', b :: t' => if Ascii.eqb a b then strip_prefix s' t' else None
  | _ :: _, [] => None
  end.

(** ** The parsy combinators used by the grammar *)

Module Parsy.

(** A parser runs on a stream and an index into it.  The stream is kept
    split at the index: [consumed] is [stream[:index]] and [remaining] is
    [stream[index:]]. *)
Record Input : Type := mkInput { consumed : text; remaining : text }.

(** What a parser gives: a value and the new index, a failure, or no answer
    at all ([Diverged]: the loop of [times] ran without end). *)
Inductive Result (A : Type) : Type :=
| Success (value : A) (next : Input)
| Failure
| Diverged.

Arguments Success {A} value next.
Arguments Failure {A}.
Arguments Diverged {A}.

Definition Parser (A : Type) : Type := Input -> Result A.

(** [success(v)] *)
Definition success {A} (v : A) : Parser A := fun i => Success v i.

(** [p.bind(f)] *)
Definition bind {A B} (p : Parser A) (f : A -> Parser B) : Parser B :=
  fun i =>
    match p i with
    | Success a i' => f a i'
    | Failure => Failure
    | Diverged => Diverged
    end.

(** [p.map(f)] *)
Definition map {A B} (p : Parser A) (f : A -> B) : Parser B :=
  bind p (fun a => success (f a)).

(** [p >> q]: both in sequence, the value of [q]. *)
Definition then_ {A B} (p : Parser A) (q : Parser B) : Parser B :=
  bind p (fun _ => q).

(** [p << q]: both in sequence, the value of [p]. *)
Definition skip {A B} (p : Parser A) (q : Parser B) : Parser A :=
  bind p (fun a => bind q (fun _ => success a)).

(** [p | q]: [q] is tried, at the same index, only when [p] fails. *)
Definition alt {A} (p q : Parser A) : Parser A :=
  fun i =>
    match p i with
    | Failure => q i
    | r => r
    end.

(** [string(s)] *)
Definition string (s : text) : Parser text :=
  fun i =>
    match strip_prefix s (remaining i) with
    | Some r => Success s (mkInput (consumed i ++ s) r)
    | None => Failure
    end.

(** [regex("[...]*")] for the character class [keep]: never fails. *)
Definition regex_star (keep : ascii -> bool) : Parser text :=
  fun i =>
    let (x, y) := span keep (remaining i) in
    Success x (mkInput (consumed i ++ x) y).

(** [regex("[...]+")] for the character class [keep]. *)
Definition regex_plus (keep : ascii -> bool) : Parser text :=
  fun i =>
    match span keep (remaining i) with
    | ([], _) => Failure
    | (x, y) => Success x (mkInput (consumed i ++ x) y)
    end.

(** [char_from(s)]: any one character of [s]. *)
Definition char_from (s : text) : Parser text :=
  fun i =>
    match remaining i with
    | a :: r =>
        if text_in a s
        then Success [a] (mkInput (consumed i ++ [a]) r)
        else Failure
    | [] => Failure
    end.

(** [times < max], where [None] is [float("inf")]. *)
Definition below (times : nat) (max : option nat) : bool :=
  match max with
  | Some m => times <? m
  | None => true
  end.

(** The [while] loop of [p.times(min, max)].  One unit of [fuel] is spent
    per iteration. *)
Fixpoint times_loop {A} (fuel : nat) (p : Parser A) (min : nat)
  (max : option nat) (times : nat) (values : list A) (i : Input)
  : Result (list A) :=
  match fuel with
  | O => Diverged
  | S fuel' =>
      if below times max then
        match p i with
        | Success v i' =>
            times_loop fuel' p min max (S times) (values ++ [v]) i'
        | Failure => if min <=? times then Success values i else Failure
        | Diverged => Diverged
        end
      else Success values i
  end.

(** [p.times(min, max)].  A bounded loop makes at most [max] iterations and
    one last test.  An unbounded loop that terminates at all makes at most
    one successful iteration per remaining character (a success that
    consumes nothing repeats for ever) and one failing iteration. *)
Definition times {A} (p : Parser A) (min : nat) (max : option nat)
  : Parser (list A) :=
  fun i =>
    times_loop
      (S (match max with Some m => m | None => length (remaining i) end))
      p min max 0 [] i.

(** [p.at_least(n)] is [p.times(n, float("inf"))]. *)
Definition at_least {A} (p : Parser A) (n : nat) : Parser (list A) :=
  times p n None.

(** [p.optional()] is [p.times(0, 1).map(lambda v: v[0] if v else None)]. *)
Definition optional {A} (p : Parser A) : Parser (option A) :=
  map (times p 0 (Some 1)) (fun v => hd_error v).

(** [p.sep_by(sep)] with the default bounds [min=0], [max=float("inf")]:
    [p.times(1) + (sep >> p).times(min - 1, max - 1) | success([])].
    With [min = 0] the lower bound [min - 1] never stops the loop, as with
    the bound [0] here. *)
Definition sep_by {A B} (p : Parser A) (sep : Parser B) : Parser (list A) :=
  alt
    (bind (times p 1 (Some 1)) (fun xs =>
       bind (times (then_ sep p) 0 None) (fun ys => success (xs ++ ys))))
    (success []).

(** [eof] *)
Definition eof : Parser unit :=
  fun i =>
    match remaining i with
    | [] => Success tt i
    | _ :: _ => Failure
    end.

(** [line_info]: the 0-based row and column of the index, the row being
    [stream.count("\n", 0, index)]. *)
Definition line_info : Parser (nat * nat) :=
  fun i =>
    Success
      (count_occ ascii_dec (consumed i) nl,
       length (fst (span not_nl (rev (consumed i)))))
      i.

End Parsy.

Import Parsy.

Declare Scope parsy_scope.
Delimit Scope parsy_scope with parsy.
Notation "p >> q" := (then_ p q) (at level 61, left associativity)
  : parsy_scope.
Notation "p << q" := (skip p q) (at level 61, left associativity)
  : parsy_scope.
Notation "p <|> q" := (alt p q) (at level 62, left associativity)
  : parsy_scope.
Open Scope parsy_scope.

(** ** Calls that return, raise or do not come back *)

Inductive Exception : Type := ParseError | OSError.

Inductive Outcome (A : Type) : Type :=
| Returns (v : A)
| Raises (e : Exception)
| Hangs.

Arguments Returns {A} v.
Arguments Raises {A} e.
Arguments Hangs {A}.

(** [p.parse(stream)]: [(p << eof)] run from index 0; a failure raises
    [ParseError]. *)
Definition parse {A} (p : Parser A) (stream : text) : Outcome A :=
  match (p << eof) (mkInput [] stream) with
  | Success v _ => Returns v
  | Failure => Raises ParseError
  | Diverged => Hangs
  end.

(** ** semdep/parsers/util.py *)

Module Util.

(** Modelled from the spec: [upto] of semdep/parsers/util.py is not among
    the sources.  A colon-delimited segment is a non-empty span that holds
    no delimiter and stops before end of line; with [consume_other] the
    delimiter that follows it is parsed and thrown out. *)
Definition upto (s : text) (consume_other : bool) : Parser text :=
  let segment := regex_plus (fun c => negb (text_in c s) && not_nl c) in
  if consume_other
  then segment << char_from s
  else segment.

(** Modelled from the spec: [consume_line] of semdep/parsers/util.py is not
    among the sources.  It consumes the rest of the line, up to and without
    the line feed, whatever it holds. *)
Definition consume_line : Parser text := regex_star not_nl.

(** The 1-based number of the line the index is on. *)
Definition current_line : Parser nat :=
  map line_info (fun t => fst t + 1).

(** Modelled from the spec: [mark_line] of semdep/parsers/util.py is not
    among the sources.  It pairs the value of [p] with the 1-based number of
    the line on which [p] starts. *)
Definition mark_line {A} (p : Parser A) : Parser (nat * A) :=
  bind current_line (fun line => bind p (fun x => success (line, x))).

(** Modelled from the spec: [safe_path_parse] of semdep/parsers/util.py is
    not among the sources.  [file] is what reading the path gives: [None]
    when the file cannot be read.  An unreadable file and a document the
    grammar rejects both give Python's [None]; nothing is raised. *)
Definition safe_path_parse {A} (file : option text) (parser : Parser A)
  : Outcome (option A) :=
  match file with
  | None => Returns None
  | Some stream =>
      match parse parser stream with
      | Returns v => Returns (Some v)
      | Raises _ => Returns None
      | Hangs => Hangs
      end
  end.

End Util.

Import Util.

(** ** semgrep_output_v1: the types of the records built here *)

(** Modelled from the spec: the declaration of [Transitivity] in
    semgrep_output_v1 is not among the sources.  A dependency is declared
    by the project itself or pulled in by another dependency. *)
Inductive Transitivity : Type := Direct | Transitive.

(** Modelled from the spec: the declaration of [Ecosystem] in
    semgrep_output_v1 is not among the sources.  [Maven] is the ecosystem of
    this parser; the others belong to the parsers of other lockfiles. *)
Inductive Ecosystem : Type := Npm | Pypi | Gem | Gomod | Cargo | Maven | Gradle.

(** Modelled from the spec: the declaration of [FoundDependency] in
    semgrep_output_v1 is not among the sources.  The fields are the keyword
    arguments of the constructor call in [parse_pom_tree]; [allowed_hashes]
    is a dict from a hash algorithm to hashes, here an association list. *)
Record FoundDependency : Type := mkFoundDependency {
  package : text;
  version : text;
  ecosystem : Ecosystem;
  allowed_hashes : list (text * list text);
  transitivity : Transitivity;
  line_number : nat
}.

(** ** semdep/parsers/pom_tree.py *)

(** [org.apache.logging.log4j:log4j-api:jar:0.0.2:compile] *)
Definition dep : Parser (text * text) :=
  upto [colon] true >>
  bind (upto [colon] true) (fun package =>
    upto [colon] true >>
    bind (upto [colon] true) (fun version =>
      success (package, version) << consume_line)).

(** One indentation marker: [string("|  ") | string("   ")]. *)
Definition marker : Parser text := string (lit "|  ") <|> string (lit "   ").

(** The branch glyph: [string("+- ") | string(r"\- ")]. *)
Definition branch : Parser text := string (lit "+- ") <|> string (lit "\- ").

(** The markers in front of the glyph: [depth] in the source. *)
Definition indentation : Parser (list text) :=
  at_least marker 1 <|> success [].

(** One dependency line: its line number, then [(transitivity, package,
    version)]. *)
Definition tree_line : Parser (nat * (Transitivity * text * text)) :=
  mark_line
    (bind indentation (fun depth =>
       branch >>
       map dep (fun d =>
         (if 0 <? length depth then Transitive else Direct, fst d, snd d)))).

(** The whole document.  The first line is the name of the current
    project and is ignored. *)
Definition pom_tree : Parser (list (nat * (Transitivity * text * text))) :=
  consume_line >> string [nl] >> sep_by tree_line (string [nl])
  << optional (string [nl]).

(** [parse_pom_tree(tree_path, _)].  [tree_path] is given by what reading it
    yields, [None] for a file that cannot be read; the second argument is
    not used by the source and is left out.  [not deps] holds of [None] and
    of the empty list. *)
Definition parse_pom_tree (tree_path : option text)
  : Outcome (list FoundDependency) :=
  match safe_path_parse tree_path pom_tree with
  | Returns deps =>
      match deps with
      | None | Some [] => Returns []
      | Some deps =>
          Returns
            (List.map
               (fun '(line_number, (transitivity, package, version)) =>
                  mkFoundDependency package version Maven [] transitivity
                    line_number)
               deps)
      end
  | Raises e => Raises e
  | Hangs => Hangs
  end.

(** ** The documents the build tool prints *)

(** The two spellings of an indentation marker. *)
Inductive Marker : Type := Bar | Blank.

Definition marker_text (m : Marker) : text :=
  match m with
  | Bar => lit "|  "
  | Blank => lit "   "
  end.

(** The two shapes of the branch glyph. *)
Inductive Glyph : Type := Tee | LastChild.

Definition glyph_text (g : Glyph) : text :=
  match g with
  | Tee => lit "+- "
  | LastChild => lit "\- "
  end.

(** A dependency line: its markers, its glyph, the four fields of the
    coordinate and the scope and classifier tail that follows the fourth
    colon. *)
Record Line : Type := mkLine {
  indent : list Marker;
  glyph : Glyph;
  group_id : text;
  artifact : text;
  packaging : text;
  revision : text;
  scope_tail : text
}.

(** A character of a colon-delimited segment. *)
Definition segment_char (c : ascii) : bool :=
  negb (text_in c [colon]) && not_nl c.

(** A segment: not empty, no colon, no line feed. *)
Definition segment_ok (s : text) : bool :=
  match s with
  | [] => false
  | _ :: _ => forallb segment_char s
  end.

(** Text within one line. *)
Definition one_line (s : text) : bool := forallb not_nl s.

Definition line_ok (l : Line) : bool :=
  segment_ok (group_id l) && segment_ok (artifact l)
  && segment_ok (packaging l) && segment_ok (revision l)
  && one_line (scope_tail l).

(** [group:artifact:packaging:version:tail] *)
Definition coordinate_text (f1 f2 f3 f4 tail : text) : text :=
  f1 ++ colon :: f2 ++ colon :: f3 ++ colon :: f4 ++ colon :: tail.

Definition indent_text (ms : list Marker) : text :=
  concat (List.map marker_text ms).

Definition line_text (l : Line) : text :=
  indent_text (indent l) ++ glyph_text (glyph l)
  ++ coordinate_text (group_id l) (artifact l) (packaging l) (revision l)
       (scope_tail l).

(** Lines that each follow a line feed. *)
Definition more_lines (ls : list text) : text :=
  concat (List.map (cons nl) ls).

(** ["\n".join(ls)] *)
Definition join_lines (ls : list text) : text :=
  match ls with
  | [] => []
  | l :: ls' => l ++ more_lines ls'
  end.

(** A document: the root label, a line feed, the dependency lines with a
    line feed between them, and a last line feed or none. *)
Definition document (root : text) (ls : list Line) (trailing : bool) : text :=
  root ++ nl :: join_lines (List.map line_text ls)
  ++ (if trailing then [nl] else []).

Definition lines_ok (ls : list Line) : bool := forallb line_ok ls.

(** Depth is the number of markers; it alone decides transitivity. *)
Definition depth (l : Line) : nat := length (indent l).

Definition transitivity_of_depth (d : nat) : Transitivity :=
  if 0 <? d then Transitive else Direct.

(** What [tree_line] gives for the line [l] met on line [n]. *)
Definition triple_of (n : nat) (l : Line)
  : nat * (Transitivity * text * text) :=
  (n, (transitivity_of_depth (depth l), artifact l, revision l)).

Fixpoint triples_from (n : nat) (ls : list Line)
  : list (nat * (Transitivity * text * text)) :=
  match ls with
  | [] => []
  | l :: ls' => triple_of n l :: triples_from (S n) ls'
  end.

(** The record of the line [l] met on line [n]. *)
Definition record_of (n : nat) (l : Line) : FoundDependency :=
  mkFoundDependency (artifact l) (revision l) Maven []
    (transitivity_of_depth (depth l)) n.

Fixpoint records_from (n : nat) (ls : list Line) : list FoundDependency :=
  match ls with
  | [] => []
  | l :: ls' => record_of n l :: records_from (S n) ls'
  end.

(** The index is at the end of a line: at a line feed or at the end of the
    stream. *)
Definition at_eol (r : text) : bool :=
  match r with
  | [] => true
  | c :: _ => is_nl c
  end.

(** The lines of a text, as [s.split("\n")] gives them. *)
Fixpoint split_lines (s : text) : list text :=
  match s with
  | [] => [[]]
  | c :: s' =>
      if is_nl c then [] :: split_lines s'
      else match split_lines s' with
           | [] => [[c]]
           | l :: ls => (c :: l) :: ls
           end
  end.

(** The whole of [s] is one dependency line for the grammar. *)
Definition matches_line (s : text) : bool :=
  match (tree_line << eof) (mkInput [] s) with
  | Success _ _ => true
  | _ => false
  end.

Definition is_blank (s : text) : bool :=
  match s with
  | [] => true
  | _ :: _ => false
  end.

Definition count_colons (s : text) : nat := count_occ ascii_dec s colon.

Definition count_nl (s : text) : nat := count_occ ascii_dec s nl.

(** [r] without the line feed it may start with. *)
Definition drop_nl (r : text) : text :=
  match strip_prefix [nl] r with
  | Some r' => r'
  | None => r
  end.

(** What must follow the dependency lines [ls] for [sep_by] to stop there:
    no line where the first one is looked for, no line feed followed by a
    line after that. *)
Definition stops_after (ls : list Line) (r : text) : Prop :=
  match ls with
  | [] => forall c, tree_line (mkInput c r) = Failure
  | _ :: _ =>
      at_eol r = true
      /\ forall c, (string [nl] >> tree_line) (mkInput c r) = Failure
  end.

(** Two line feeds in a row somewhere in [t], or one at its head when
    [prev] says a line feed came just before: a blank line that is not the
    end of the text. *)
Fixpoint blank_inside (prev : bool) (t : text) : bool :=
  match t with
  | [] => false
  | a :: t' => (prev && is_nl a) || blank_inside (is_nl a) t'
  end.

(** The line [l] behind other markers and another glyph. *)
Definition with_prefix (ms : list Marker) (g : Glyph) (l : Line) : Line :=
  mkLine ms g (group_id l) (artifact l) (packaging l) (revision l)
    (scope_tail l).

(** The file cannot be read, or the grammar rejects what it holds. *)
Definition unreadable_or_rejected (file : option text) : bool :=
  match file with
  | None => true
  | Some stream =>
      match parse pom_tree stream with
      | Raises _ => true
      | _ => false
      end
  end.

(** ** Sample lines, from the comments of pom_tree.py *)

Definition sample_root : text := lit "com.example:app:jar:1.0".

Definition log4j : Line :=
  mkLine [] Tee (lit "org.apache.logging.log4j") (lit "log4j-api")
    (lit "jar") (lit "0.0.2") (lit "compile").

Definition maven_model : Line :=
  mkLine [Bar] Tee (lit "org.apache.maven") (lit "maven-model")
    (lit "jar") (lit "3.8.6") (lit "provided").

Definition plexus : Line :=
  mkLine [Bar; Bar] LastChild (lit "org.codehaus.plexus")
    (lit "plexus-component-annotations") (lit "jar") (lit "1.5.5")
    (lit "provided").

Definition jna : Line :=
  mkLine [Blank] LastChild (lit "net.java.dev.jna") (lit "jna")
    (lit "jar") (lit "5.11.0") (lit "compile").

Definition spring_aop : Line :=
  mkLine [Bar; Blank] Tee (lit "org.springframework") (lit "spring-aop")
    (lit "jar") (lit "5.3.9") (lit "compile").

Definition sample_lines : list Line :=
  [log4j; maven_model; plexus; jna; spring_aop].

(** A dependency line whose coordinate stops after the version. *)
Definition no_scope_line : text := lit "+- group:artifact:jar:1.0".

(** A dependency line whose coordinate has three fields. *)
Definition three_field_line : text := lit "+- group:artifact:jar".

(** A dependency line whose four segments are all empty. *)
Definition empty_segments_line : text := lit "+- ::::".

(** The four fields of [l] hold neither colon nor line feed and its tail
    holds no line feed: [l] reads back as four segments and a tail. *)
Definition spans_ok (l : Line) : bool :=
  forallb segment_char (group_id l) && forallb segment_char (artifact l)
  && forallb segment_char (packaging l) && forallb segment_char (revision l)
  && one_line (scope_tail l).

(** One of the four segments of [l] is empty. *)
Definition has_empty_segment (l : Line) : bool :=
  is_blank (group_id l) || is_blank (artifact l)
  || is_blank (packaging l) || is_blank (revision l).

(** [t] starts with [s]: [t.startswith(s)]. *)
Definition starts_with (s t : text) : bool :=
  match strip_prefix s t with
  | Some _ => true
  | None => false
  end.

(** The carriage return, Python's ["\r"]. *)
Definition cr : ascii := ascii_of_nat 13.

(** The line [l] as a tool writing [\r\n] line ends prints it: a carriage
    return closes the tail. *)
Definition with_cr (l : Line) : Line :=
  mkLine (indent l) (glyph l) (group_id l) (artifact l) (packaging l)
    (revision l) (scope_tail l ++ [cr]).

(** A parser that always answers. *)
Definition total {A} (p : Parser A) : Prop := forall i, p i <> Diverged.

(** A parser that consumes at least one character when it succeeds. *)
Definition productive {A} (p : Parser A) : Prop :=
  forall i v i', p i = Success v i' ->
                 length (remaining i') < length (remaining i).

Create HintDb totality.

(** ** Characters and prefixes *)

Lemma span_app (keep : ascii -> bool) (s r : text) :
  forallb keep s = true ->
  match r with [] => True | c :: _ => keep c = false end ->
  span keep (s ++ r) = (s, r).
Proof.
  intros Hs Hr. induction s as [|a s IH]; simpl in *.
  - destruct r as [|c r]; [reflexivity|]. simpl. now rewrite Hr.
  - apply andb_true_iff in Hs as [Ha Hs]. rewrite Ha, (IH Hs). reflexivity.
Qed.

Lemma span_inv (keep : ascii -> bool) (t x y : text) :
  span keep t = (x, y) ->
  t = x ++ y /\ forallb keep x = true
  /\ match y with [] => True | c :: _ => keep c = false end.
Proof.
  revert x y. induction t as [|a t IH]; simpl; intros x y H.
  - inversion H; subst. auto.
  - destruct (keep a) eqn:Ka.
    + destruct (span keep t) as [x' y'] eqn:E. inversion H; subst.
      destruct (IH _ _ eq_refl) as (-> & Hx & Hy). simpl. rewrite Ka, Hx. auto.
    + inversion H; subst. simpl. rewrite Ka. auto.
Qed.

Lemma strip_prefix_app (s r : text) : strip_prefix s (s ++ r) = Some r.
Proof.
  induction s as [|a s IH]; simpl; [reflexivity|].
  now rewrite Ascii.eqb_refl.
Qed.

Lemma strip_prefix_inv (s t r : text) :
  strip_prefix s t = Some r -> t = s ++ r.
Proof.
  revert t. induction s as [|a s IH]; simpl; intros t H.
  - now inversion H.
  - destruct t as [|b t]; [discriminate|].
    destruct (Ascii.eqb a b) eqn:E; [|discriminate].
    apply Ascii.eqb_eq in E. subst. f_equal. now apply IH.
Qed.

Lemma at_eol_stops (r : text) :
  at_eol r = true -> match r with [] => True | c :: _ => not_nl c = false end.
Proof.
  destruct r as [|c r]; simpl; [trivial|]. unfold not_nl. now intros ->.
Qed.

Lemma stops_at_eol (r : text) :
  match r with [] => True | c :: _ => not_nl c = false end -> at_eol r = true.
Proof.
  destruct r as [|c r]; simpl; [trivial|]. unfold not_nl.
  now destruct (is_nl c).
Qed.

Lemma segment_char_not_nl (c : ascii) : segment_char c = true -> not_nl c = true.
Proof. unfold segment_char. intros H. now apply andb_true_iff in H. Qed.

Lemma segment_ok_chars (s : text) :
  segment_ok s = true -> forallb segment_char s = true.
Proof. destruct s; [discriminate|trivial]. Qed.

Lemma segment_ok_one_line (s : text) : segment_ok s = true -> one_line s = true.
Proof.
  intros H. apply segment_ok_chars in H. unfold one_line.
  rewrite forallb_forall in *. intros c Hc. apply segment_char_not_nl. auto.
Qed.

Lemma count_nl_app (a b : text) : count_nl (a ++ b) = count_nl a + count_nl b.
Proof. apply count_occ_app. Qed.

Lemma one_line_count_nl (s : text) : one_line s = true -> count_nl s = 0.
Proof.
  unfold one_line, count_nl. induction s as [|c s IH]; simpl; [trivial|].
  intros H. apply andb_true_iff in H as [Hc Hs].
  destruct (ascii_dec c nl) as [->|_]; [discriminate|auto].
Qed.

Lemma one_line_app (a b : text) :
  one_line (a ++ b) = one_line a && one_line b.
Proof. apply forallb_app. Qed.

(** ** The combinators, step by step *)

Lemma bind_inv {A B} (p : Parser A) (f : A -> Parser B) i v i' :
  bind p f i = Success v i' ->
  exists a j, p i = Success a j /\ f a j = Success v i'.
Proof.
  unfold bind. destruct (p i) as [a j| |]; try discriminate. eauto.
Qed.

Lemma then_inv {A B} (p : Parser A) (q : Parser B) i v i' :
  (p >> q) i = Success v i' ->
  exists a j, p i = Success a j /\ q j = Success v i'.
Proof. apply bind_inv. Qed.

Lemma skip_inv {A B} (p : Parser A) (q : Parser B) i v i' :
  (p << q) i = Success v i' ->
  exists j b, p i = Success v j /\ q j = Success b i'.
Proof.
  unfold skip. intros H. apply bind_inv in H as (a & j & Hp & H).
  apply bind_inv in H as (b & k & Hq & H). inversion H; subst. eauto.
Qed.

Lemma map_inv {A B} (p : Parser A) (f : A -> B) i v i' :
  map p f i = Success v i' -> exists a, p i = Success a i' /\ v = f a.
Proof.
  unfold map. intros H. apply bind_inv in H as (a & j & Hp & H).
  inversion H; subst. eauto.
Qed.

Lemma alt_inv {A} (p q : Parser A) i v i' :
  (p <|> q) i = Success v i' ->
  p i = Success v i' \/ (p i = Failure /\ q i = Success v i').
Proof. unfold alt. destruct (p i); intros H; auto; discriminate. Qed.

Lemma string_ok (s c r : text) :
  string s (mkInput c (s ++ r)) = Success s (mkInput (c ++ s) r).
Proof. unfold string. simpl. now rewrite strip_prefix_app. Qed.

Lemma string_inv (s : text) i v i' :
  string s i = Success v i' ->
  v = s /\ remaining i = s ++ remaining i' /\ consumed i' = consumed i ++ s.
Proof.
  unfold string. destruct (strip_prefix s (remaining i)) as [r|] eqn:E;
    [|discriminate].
  intros H. inversion H; subst. simpl. apply strip_prefix_inv in E. auto.
Qed.

Lemma upto_ok (f c r : text) :
  segment_ok f = true ->
  upto [colon] true (mkInput c (f ++ colon :: r))
  = Success f (mkInput (c ++ f ++ [colon]) r).
Proof.
  intros Hf. unfold upto, skip, bind, regex_plus. simpl remaining.
  fold segment_char.
  rewrite (span_app segment_char f (colon :: r));
    [|now apply segment_ok_chars|reflexivity].
  destruct f as [|a f]; [discriminate|]. simpl.
  now rewrite <- app_assoc.
Qed.

Lemma upto_inv i v i' :
  upto [colon] true i = Success v i' ->
  segment_ok v = true /\ remaining i = v ++ colon :: remaining i'
  /\ consumed i' = consumed i ++ v ++ [colon].
Proof.
  intros H. apply skip_inv in H as (j & b & Hseg & Hdelim).
  unfold regex_plus in Hseg. fold segment_char in Hseg.
  destruct (span segment_char (remaining i)) as [x y] eqn:E.
  apply span_inv in E as (Hrem & Hx & _).
  destruct x as [|a x]; [discriminate Hseg|].
  inversion Hseg; subst v j. clear Hseg.
  unfold char_from in Hdelim. cbn [remaining consumed] in Hdelim.
  destruct y as [|d y]; [discriminate Hdelim|].
  destruct (text_in d [colon]) eqn:Hd; [|discriminate Hdelim].
  inversion Hdelim; subst. simpl.
  unfold text_in in Hd. simpl in Hd. rewrite orb_false_r in Hd.
  apply Ascii.eqb_eq in Hd. subst d.
  repeat split; [exact Hx|exact Hrem|now rewrite <- app_assoc].
Qed.

Lemma consume_line_ok (t c r : text) :
  one_line t = true -> at_eol r = true ->
  consume_line (mkInput c (t ++ r)) = Success t (mkInput (c ++ t) r).
Proof.
  intros Ht Hr. unfold consume_line, regex_star. simpl.
  now rewrite (span_app not_nl t r Ht (at_eol_stops r Hr)).
Qed.

Lemma consume_line_inv i v i' :
  consume_line i = Success v i' ->
  one_line v = true /\ at_eol (remaining i') = true
  /\ remaining i = v ++ remaining i' /\ consumed i' = consumed i ++ v.
Proof.
  unfold consume_line, regex_star.
  destruct (span not_nl (remaining i)) as [x y] eqn:E.
  apply span_inv in E as (Hrem & Hx & Hy).
  intros H. inversion H; subst. simpl. auto using stops_at_eol.
Qed.

(** ** The coordinate extractor *)

Lemma dep_ok (f1 f2 f3 f4 tail c r : text) :
  segment_ok f1 = true -> segment_ok f2 = true ->
  segment_ok f3 = true -> segment_ok f4 = true ->
  one_line tail = true -> at_eol r = true ->
  dep (mkInput c (coordinate_text f1 f2 f3 f4 tail ++ r))
  = Success (f2, f4) (mkInput (c ++ coordinate_text f1 f2 f3 f4 tail) r).
Proof.
  intros H1 H2 H3 H4 Ht Hr. unfold dep, coordinate_text, then_, skip.
  repeat (rewrite <- ?app_assoc; simpl app).
  unfold bind at 1. rewrite (upto_ok f1 _ _ H1).
  unfold bind at 1. rewrite (upto_ok f2 _ _ H2).
  unfold bind at 1. rewrite (upto_ok f3 _ _ H3).
  unfold bind at 1. rewrite (upto_ok f4 _ _ H4).
  unfold bind, success. rewrite (consume_line_ok tail _ r Ht Hr).
  repeat (rewrite <- ?app_assoc; simpl app). reflexivity.
Qed.

Lemma dep_inv i v i' :
  dep i = Success v i' ->
  exists f1 f2 f3 f4 tail,
    segment_ok f1 = true /\ segment_ok f2 = true /\ segment_ok f3 = true
    /\ segment_ok f4 = true /\ one_line tail = true
    /\ at_eol (remaining i') = true /\ v = (f2, f4)
    /\ remaining i = coordinate_text f1 f2 f3 f4 tail ++ remaining i'
    /\ consumed i' = consumed i ++ coordinate_text f1 f2 f3 f4 tail.
Proof.
  unfold dep. intros H.
  apply then_inv in H as (f1 & j1 & U1 & H).
  apply bind_inv in H as (f2 & j2 & U2 & H).
  apply then_inv in H as (f3 & j3 & U3 & H).
  apply bind_inv in H as (f4 & j4 & U4 & H).
  apply skip_inv in H as (j5 & tail & S5 & L).
  inversion S5; subst v j5. clear S5.
  apply upto_inv in U1 as (K1 & R1 & C1).
  apply upto_inv in U2 as (K2 & R2 & C2).
  apply upto_inv in U3 as (K3 & R3 & C3).
  apply upto_inv in U4 as (K4 & R4 & C4).
  apply consume_line_inv in L as (Kt & El & Rl & Cl).
  exists f1, f2, f3, f4, tail. repeat split; auto.
  - rewrite R1, R2, R3, R4, Rl. unfold coordinate_text.
    repeat (rewrite <- ?app_assoc; simpl app). reflexivity.
  - rewrite Cl, C4, C3, C2, C1. unfold coordinate_text.
    repeat (rewrite <- ?app_assoc; simpl app). reflexivity.
Qed.

(** ** Markers, glyph and one whole line *)

Lemma marker_ok (m : Marker) (c r : text) :
  marker (mkInput c (marker_text m ++ r))
  = Success (marker_text m) (mkInput (c ++ marker_text m) r).
Proof. destruct m; reflexivity. Qed.

Lemma marker_inv i v i' :
  marker i = Success v i' ->
  exists m, v = marker_text m /\ remaining i = marker_text m ++ remaining i'
            /\ consumed i' = consumed i ++ marker_text m.
Proof.
  unfold marker. intros H.
  apply alt_inv in H as [H|[_ H]]; apply string_inv in H as (-> & R & C);
    [exists Bar|exists Blank]; auto.
Qed.

Lemma marker_stops_at_glyph (g : Glyph) (c r : text) :
  marker (mkInput c (glyph_text g ++ r)) = Failure.
Proof. destruct g; reflexivity. Qed.

Lemma branch_ok (g : Glyph) (c r : text) :
  branch (mkInput c (glyph_text g ++ r))
  = Success (glyph_text g) (mkInput (c ++ glyph_text g) r).
Proof. destruct g; reflexivity. Qed.

Lemma branch_inv i v i' :
  branch i = Success v i' ->
  exists g, remaining i = glyph_text g ++ remaining i'
            /\ consumed i' = consumed i ++ glyph_text g.
Proof.
  unfold branch. intros H.
  apply alt_inv in H as [H|[_ H]]; apply string_inv in H as (-> & R & C);
    [exists Tee|exists LastChild]; auto.
Qed.

Lemma indent_text_length (ms : list Marker) :
  length (indent_text ms) = 3 * length ms.
Proof.
  unfold indent_text. induction ms as [|m ms IH]; simpl; [reflexivity|].
  rewrite length_app, IH. destruct m; simpl; lia.
Qed.

(** The loop of [at_least] over the markers of a line: it takes them all and
    stops at the glyph. *)
Lemma marker_loop (ms : list Marker) :
  forall fuel min times acc c g r,
    length ms < fuel ->
    times_loop fuel marker min None times acc
      (mkInput c (indent_text ms ++ glyph_text g ++ r))
    = if min <=? times + length ms
      then Success (acc ++ List.map marker_text ms)
             (mkInput (c ++ indent_text ms) (glyph_text g ++ r))
      else Failure.
Proof.
  induction ms as [|m ms IH]; intros fuel min times acc c g r Hfuel;
    (destruct fuel as [|fuel]; [simpl in Hfuel; lia|]).
  - simpl. rewrite marker_stops_at_glyph.
    rewrite Nat.add_0_r, !app_nil_r. reflexivity.
  - unfold indent_text. simpl List.map. simpl concat. fold (indent_text ms).
    cbn [times_loop below]. rewrite <- app_assoc. rewrite marker_ok.
    rewrite IH by (simpl in Hfuel; lia).
    simpl length. replace (S times + length ms) with (times + S (length ms)) by lia.
    rewrite <- !app_assoc. reflexivity.
Qed.

Lemma indentation_ok (ms : list Marker) (g : Glyph) (c r : text) :
  indentation (mkInput c (indent_text ms ++ glyph_text g ++ r))
  = Success (List.map marker_text ms)
      (mkInput (c ++ indent_text ms) (glyph_text g ++ r)).
Proof.
  unfold indentation, alt, at_least, times.
  rewrite marker_loop.
  - destruct ms as [|m ms]; simpl; [|reflexivity].
    unfold success. now rewrite app_nil_r.
  - cbn [remaining]. rewrite length_app, indent_text_length. lia.
Qed.

Lemma marker_loop_inv :
  forall fuel min times acc i vs i',
    times_loop fuel marker min None times acc i = Success vs i' ->
    exists ms, vs = acc ++ List.map marker_text ms
               /\ remaining i = indent_text ms ++ remaining i'
               /\ consumed i' = consumed i ++ indent_text ms.
Proof.
  induction fuel as [|fuel IH]; intros min times acc i vs i' H;
    [discriminate H|].
  cbn [times_loop below] in H.
  destruct (marker i) as [v j| |] eqn:M; [| |discriminate H].
  - apply marker_inv in M as (m & -> & R & C).
    apply IH in H as (ms & -> & R' & C').
    exists (m :: ms). unfold indent_text in *. simpl.
    rewrite <- !app_assoc. rewrite R, R', C', C.
    rewrite <- !app_assoc. auto.
  - destruct (min <=? times); [|discriminate H]. inversion H; subst.
    exists []. simpl. now rewrite !app_nil_r.
Qed.

Lemma indentation_inv i v i' :
  indentation i = Success v i' ->
  exists ms, length v = length ms
             /\ remaining i = indent_text ms ++ remaining i'
             /\ consumed i' = consumed i ++ indent_text ms.
Proof.
  unfold indentation. intros H. apply alt_inv in H as [H|[_ H]].
  - apply marker_loop_inv in H as (ms & -> & R & C).
    exists ms. simpl. now rewrite length_map.
  - inversion H; subst. exists []. simpl. now rewrite app_nil_r.
Qed.

Lemma indent_text_one_line (ms : list Marker) : one_line (indent_text ms) = true.
Proof.
  unfold indent_text. induction ms as [|m ms IH]; [reflexivity|].
  simpl. rewrite one_line_app, IH. now destruct m.
Qed.

Lemma coordinate_text_one_line (f1 f2 f3 f4 tail : text) :
  segment_ok f1 = true -> segment_ok f2 = true ->
  segment_ok f3 = true -> segment_ok f4 = true -> one_line tail = true ->
  one_line (coordinate_text f1 f2 f3 f4 tail) = true.
Proof.
  intros H1 H2 H3 H4 Ht. unfold coordinate_text.
  apply segment_ok_one_line in H1, H2, H3, H4.
  repeat (rewrite one_line_app || (unfold one_line at 1; cbn [forallb];
          fold (one_line))).
  cbn. unfold one_line in *. now rewrite H1, H2, H3, H4, Ht.
Qed.

Lemma line_ok_fields (l : Line) :
  line_ok l = true ->
  segment_ok (group_id l) = true /\ segment_ok (artifact l) = true
  /\ segment_ok (packaging l) = true /\ segment_ok (revision l) = true
  /\ one_line (scope_tail l) = true.
Proof.
  unfold line_ok. intros H.
  repeat (apply andb_true_iff in H as [H ?]). auto.
Qed.

Lemma glyph_text_one_line (g : Glyph) : one_line (glyph_text g) = true.
Proof. now destruct g. Qed.

Lemma line_text_one_line (l : Line) :
  line_ok l = true -> one_line (line_text l) = true.
Proof.
  intros H. apply line_ok_fields in H as (H1 & H2 & H3 & H4 & Ht).
  unfold line_text. rewrite !one_line_app, indent_text_one_line,
    glyph_text_one_line, coordinate_text_one_line; auto.
Qed.

Lemma line_text_not_blank (l : Line) : is_blank (line_text l) = false.
Proof.
  unfold line_text. destruct (indent l) as [|m ms].
  - now destruct (glyph l).
  - now destruct m.
Qed.

Lemma tree_line_ok (l : Line) (c r : text) :
  line_ok l = true -> at_eol r = true ->
  tree_line (mkInput c (line_text l ++ r))
  = Success (triple_of (count_nl c + 1) l) (mkInput (c ++ line_text l) r).
Proof.
  intros Hl Hr. apply line_ok_fields in Hl as (H1 & H2 & H3 & H4 & Ht).
  unfold tree_line, mark_line, current_line, line_info, map, then_, line_text.
  unfold bind at 1. unfold bind at 1. unfold success at 1.
  cbn [fst consumed]. fold (count_nl c).
  unfold bind at 1. unfold bind at 1.
  rewrite <- !app_assoc. rewrite indentation_ok.
  unfold bind at 1. rewrite branch_ok.
  unfold bind at 1. rewrite dep_ok by assumption.
  unfold success, triple_of, transitivity_of_depth, depth.
  rewrite length_map. cbn [fst snd]. rewrite <- !app_assoc. reflexivity.
Qed.

Lemma tree_line_inv i v i' :
  tree_line i = Success v i' ->
  exists l, line_ok l = true /\ at_eol (remaining i') = true
            /\ v = triple_of (count_nl (consumed i) + 1) l
            /\ remaining i = line_text l ++ remaining i'
            /\ consumed i' = consumed i ++ line_text l.
Proof.
  unfold tree_line, mark_line. intros H.
  apply bind_inv in H as (n & j0 & Hn & H).
  apply map_inv in Hn as (t & Hn & ->). inversion Hn; subst t j0. clear Hn.
  apply bind_inv in H as (x & j & H & Hv). inversion Hv; subst v j. clear Hv.
  apply bind_inv in H as (d & j1 & Hd & H).
  apply then_inv in H as (b & j2 & Hb & H).
  apply map_inv in H as (pv & H & ->).
  apply indentation_inv in Hd as (ms & Hlen & R1 & C1).
  apply branch_inv in Hb as (g & R2 & C2).
  apply dep_inv in H
    as (f1 & f2 & f3 & f4 & tail & K1 & K2 & K3 & K4 & Kt & E & -> & R3 & C3).
  exists (mkLine ms g f1 f2 f3 f4 tail).
  unfold line_ok, line_text, triple_of, transitivity_of_depth, depth.
  cbn [indent glyph group_id artifact packaging revision scope_tail fst snd].
  rewrite K1, K2, K3, K4, Kt, Hlen, R1, R2, R3, C3, C2, C1.
  rewrite <- !app_assoc. repeat split; auto.
Qed.

(** A line that starts a line break, or nothing at all, is no dependency
    line. *)
Lemma tree_line_at_end (c : text) : tree_line (mkInput c []) = Failure.
Proof. reflexivity. Qed.

Lemma tree_line_at_nl (c r : text) : tree_line (mkInput c (nl :: r)) = Failure.
Proof. reflexivity. Qed.

(** ** No parser of the grammar runs for ever *)

Lemma total_bind {A B} (p : Parser A) (f : A -> Parser B) :
  total p -> (forall a, total (f a)) -> total (bind p f).
Proof.
  intros Hp Hf i. unfold bind. specialize (Hp i).
  destruct (p i); [apply Hf|discriminate|congruence].
Qed.

Lemma total_success {A} (v : A) : total (success v).
Proof. intros i. discriminate. Qed.

Lemma total_alt {A} (p q : Parser A) : total p -> total q -> total (p <|> q).
Proof.
  intros Hp Hq i. unfold alt. specialize (Hp i).
  destruct (p i); [discriminate|apply Hq|congruence].
Qed.

Lemma total_string (s : text) : total (string s).
Proof. intros i. unfold string. destruct strip_prefix; discriminate. Qed.

Lemma total_regex_star keep : total (regex_star keep).
Proof. intros i. unfold regex_star. destruct span. discriminate. Qed.

Lemma total_regex_plus keep : total (regex_plus keep).
Proof.
  intros i. unfold regex_plus. destruct span as [[|a x] y]; discriminate.
Qed.

Lemma total_char_from (s : text) : total (char_from s).
Proof.
  intros i. unfold char_from. destruct (remaining i) as [|a r];
    [discriminate|]. destruct (text_in a s); discriminate.
Qed.

Lemma total_eof : total eof.
Proof. intros i. unfold eof. destruct (remaining i); discriminate. Qed.

Lemma total_times_at_most_once {A} (p : Parser A) (min : nat) :
  total p -> total (times p min (Some 1)).
Proof.
  intros Hp i. unfold times. cbn. specialize (Hp i).
  destruct (p i); [discriminate| |congruence].
  destruct min; discriminate.
Qed.

Lemma times_loop_total {A} (p : Parser A) :
  total p -> productive p ->
  forall fuel min times acc i,
    length (remaining i) < fuel ->
    times_loop fuel p min None times acc i <> Diverged.
Proof.
  intros Hp Hprod. induction fuel as [|fuel IH]; intros min times acc i Hfuel;
    [lia|].
  cbn [times_loop below]. destruct (p i) as [v j| |] eqn:E.
  - apply IH. apply Hprod in E. lia.
  - destruct (min <=? times); discriminate.
  - now apply Hp in E.
Qed.

Lemma total_times_unbounded {A} (p : Parser A) (min : nat) :
  total p -> productive p -> total (times p min None).
Proof.
  intros Hp Hprod i. unfold times. apply times_loop_total; auto.
Qed.

#[local] Hint Resolve total_bind total_success total_alt total_string
  total_regex_star total_regex_plus total_char_from total_eof
  total_times_at_most_once total_times_unbounded : totality.

Lemma total_upto (s : text) (b : bool) : total (upto s b).
Proof. unfold upto, skip. destruct b; auto 10 with totality. Qed.

Lemma total_consume_line : total consume_line.
Proof. apply total_regex_star. Qed.

Lemma total_dep : total dep.
Proof.
  unfold dep, then_, skip.
  repeat (apply total_bind; [apply total_upto|intros ?]).
  auto 10 using total_consume_line with totality.
Qed.

Lemma productive_marker : productive marker.
Proof.
  intros i v i' H. apply marker_inv in H as (m & _ & -> & _).
  rewrite length_app. destruct m; simpl; lia.
Qed.

Lemma total_marker : total marker.
Proof. unfold marker. auto with totality. Qed.

Lemma total_indentation : total indentation.
Proof.
  unfold indentation, at_least.
  auto using total_marker, productive_marker with totality.
Qed.

Lemma total_tree_line : total tree_line.
Proof.
  unfold tree_line, mark_line, current_line, map, then_, branch.
  apply total_bind; [apply total_bind; [discriminate|auto with totality]|].
  intros n. apply total_bind; [|auto with totality].
  apply total_bind; [apply total_indentation|]. intros d.
  apply total_bind; [auto with totality|]. intros _.
  apply total_bind; [apply total_dep|auto with totality].
Qed.

Lemma productive_next_line : productive (string [nl] >> tree_line).
Proof.
  intros i v i' H. apply then_inv in H as (a & j & Hs & Ht).
  apply string_inv in Hs as (_ & -> & _).
  apply tree_line_inv in Ht as (l & _ & _ & _ & -> & _).
  rewrite !length_app. simpl. lia.
Qed.

Lemma total_next_line : total (string [nl] >> tree_line).
Proof. unfold then_. auto using total_tree_line with totality. Qed.

Lemma total_pom_tree : total pom_tree.
Proof.
  unfold pom_tree, skip, then_, sep_by, optional, map.
  repeat first
    [ apply total_consume_line
    | apply total_tree_line
    | apply total_times_unbounded;
        [apply total_next_line|apply productive_next_line]
    | apply total_times_at_most_once
    | apply total_string
    | apply total_success
    | apply total_alt
    | apply total_bind; [|intros ?] ].
Qed.

(** ** The lines of a document *)

Lemma more_lines_length (ls : list Line) :
  length ls <= length (more_lines (List.map line_text ls)).
Proof.
  unfold more_lines. induction ls as [|l ls IH]; simpl; [lia|].
  rewrite length_app. lia.
Qed.

Lemma at_eol_more_lines (ts : list text) (r : text) :
  at_eol r = true -> at_eol (more_lines ts ++ r) = true.
Proof. destruct ts; auto. Qed.

Lemma next_line_ok (l : Line) (c r : text) :
  line_ok l = true -> at_eol r = true ->
  (string [nl] >> tree_line) (mkInput c (nl :: line_text l ++ r))
  = Success (triple_of (count_nl c + 2) l)
      (mkInput (c ++ nl :: line_text l) r).
Proof.
  intros Hl Hr. unfold then_, bind.
  change (nl :: line_text l ++ r) with ([nl] ++ line_text l ++ r).
  rewrite string_ok, (tree_line_ok l _ r Hl Hr).
  rewrite count_nl_app. change (count_nl [nl]) with 1.
  rewrite <- app_assoc. do 2 f_equal. lia.
Qed.

(** The loop of [sep_by] after the first line: one iteration per line that
    follows, each on the next line of the document. *)
Lemma next_lines_loop (ls : list Line) :
  forall fuel times acc c r,
    lines_ok ls = true -> at_eol r = true ->
    (forall c', (string [nl] >> tree_line) (mkInput c' r) = Failure) ->
    length ls < fuel ->
    times_loop fuel (string [nl] >> tree_line) 0 None times acc
      (mkInput c (more_lines (List.map line_text ls) ++ r))
    = Success (acc ++ triples_from (count_nl c + 2) ls)
        (mkInput (c ++ more_lines (List.map line_text ls)) r).
Proof.
  induction ls as [|l ls IH]; intros fuel times acc c r Hls Hr Hstop Hfuel;
    (destruct fuel as [|fuel]; [simpl in Hfuel; lia|]).
  - cbn. rewrite Hstop, !app_nil_r. reflexivity.
  - simpl in Hls. apply andb_true_iff in Hls as [Hl Hls].
    cbn [times_loop below List.map]. unfold more_lines. cbn [List.map concat].
    fold (more_lines (List.map line_text ls)).
    cbn [app]. rewrite <- app_assoc.
    rewrite (next_line_ok l c _ Hl (at_eol_more_lines _ r Hr)).
    rewrite IH by (auto; simpl in Hfuel; lia).
    rewrite count_nl_app. change (count_nl (nl :: line_text l))
      with (S (count_nl (line_text l))).
    rewrite (one_line_count_nl _ (line_text_one_line l Hl)).
    cbn [triples_from]. rewrite <- !app_assoc. cbn [app].
    replace (count_nl c + 1 + 2) with (S (count_nl c + 2)) by lia.
    reflexivity.
Qed.

Lemma sep_by_lines (ls : list Line) (c r : text) :
  lines_ok ls = true -> stops_after ls r ->
  sep_by tree_line (string [nl])
    (mkInput c (join_lines (List.map line_text ls) ++ r))
  = Success (triples_from (count_nl c + 1) ls)
      (mkInput (c ++ join_lines (List.map line_text ls)) r).
Proof.
  intros Hls Hstop. destruct ls as [|l ls].
  - simpl in Hstop. unfold sep_by, alt. unfold bind at 1. unfold times at 1.
    cbn [times_loop below Nat.ltb Nat.leb join_lines List.map app].
    rewrite Hstop. cbn. rewrite app_nil_r. reflexivity.
  - destruct Hstop as [Hr Hstop].
    simpl in Hls. apply andb_true_iff in Hls as [Hl Hls].
    cbn [join_lines List.map]. rewrite <- app_assoc.
    unfold sep_by, alt. unfold bind at 1. unfold times at 1.
    cbn [times_loop below Nat.ltb Nat.leb].
    rewrite (tree_line_ok l c _ Hl (at_eol_more_lines _ r Hr)).
    unfold bind at 1. unfold times. cbn [remaining].
    rewrite next_lines_loop;
      [|assumption|assumption|assumption|
       rewrite length_app; pose proof (more_lines_length ls); lia].
    unfold success. rewrite count_nl_app,
      (one_line_count_nl _ (line_text_one_line l Hl)).
    cbn [triples_from app]. rewrite <- app_assoc.
    replace (count_nl c + 0 + 2) with (S (count_nl c + 1)) by lia.
    reflexivity.
Qed.

Lemma optional_unfold {A} (p : Parser A) (i : Input) :
  optional p i
  = match p i with
    | Success v i' => Success (Some v) i'
    | Failure => Success None i
    | Diverged => Diverged
    end.
Proof.
  unfold optional, map, bind, times.
  cbn [times_loop below Nat.ltb Nat.leb].
  destruct (p i); reflexivity.
Qed.

Lemma optional_nl (c r : text) :
  exists v c', optional (string [nl]) (mkInput c r)
               = Success v (mkInput c' (drop_nl r)).
Proof.
  rewrite optional_unfold. unfold string, drop_nl. cbn [remaining consumed].
  destruct (strip_prefix [nl] r) as [r'|]; eauto.
Qed.

(** The grammar on a root label, dependency lines and whatever stops them:
    it gives one triple per line, numbered from 2, and halts after the line
    feed that may follow the last line. *)
Lemma pom_tree_run (root : text) (ls : list Line) (r : text) :
  one_line root = true -> lines_ok ls = true -> stops_after ls r ->
  exists c',
    pom_tree (mkInput [] (root ++ nl :: join_lines (List.map line_text ls) ++ r))
    = Success (triples_from 2 ls) (mkInput c' (drop_nl r)).
Proof.
  intros Hroot Hls Hstop. unfold pom_tree, skip, then_.
  unfold bind at 1. unfold bind at 1. unfold bind at 1.
  rewrite (consume_line_ok root [] (nl :: _) Hroot eq_refl).
  change (nl :: join_lines (List.map line_text ls) ++ r)
    with ([nl] ++ join_lines (List.map line_text ls) ++ r).
  rewrite string_ok, (sep_by_lines ls _ r Hls Hstop).
  cbn [app]. rewrite count_nl_app, (one_line_count_nl root Hroot).
  unfold bind.
  destruct (optional_nl ((root ++ [nl]) ++ join_lines (List.map line_text ls)) r)
    as (v & c' & ->).
  exists c'. reflexivity.
Qed.

Lemma records_of_triples (n : nat) (ls : list Line) :
  List.map
    (fun '(line_number, (transitivity, package, version)) =>
       mkFoundDependency package version Maven [] transitivity line_number)
    (triples_from n ls)
  = records_from n ls.
Proof.
  revert n. induction ls as [|l ls IH]; intros n; simpl; [reflexivity|].
  now rewrite IH.
Qed.

Lemma parse_run (root : text) (ls : list Line) (r : text) :
  one_line root = true -> lines_ok ls = true -> stops_after ls r ->
  parse pom_tree (root ++ nl :: join_lines (List.map line_text ls) ++ r)
  = if is_blank (drop_nl r) then Returns (triples_from 2 ls)
    else Raises ParseError.
Proof.
  intros Hroot Hls Hstop.
  destruct (pom_tree_run root ls r Hroot Hls Hstop) as (c' & E).
  unfold parse, skip, bind. rewrite E. unfold eof. cbn [remaining].
  now destruct (drop_nl r).
Qed.

Lemma parse_pom_tree_run (root : text) (ls : list Line) (r : text) :
  one_line root = true -> lines_ok ls = true -> stops_after ls r ->
  parse_pom_tree
    (Some (root ++ nl :: join_lines (List.map line_text ls) ++ r))
  = Returns (if is_blank (drop_nl r) then records_from 2 ls else []).
Proof.
  intros Hroot Hls Hstop. unfold parse_pom_tree, safe_path_parse.
  rewrite (parse_run root ls r Hroot Hls Hstop).
  destruct (is_blank (drop_nl r)); [|reflexivity].
  rewrite <- records_of_triples. now destruct (triples_from 2 ls).
Qed.

(** ** Documents the grammar accepts *)

Lemma stops_after_end (ls : list Line) : stops_after ls [].
Proof. destruct ls; simpl; auto. Qed.

Lemma stops_after_nl (ls : list Line) (r : text) :
  (forall c, tree_line (mkInput c r) = Failure) -> stops_after ls (nl :: r).
Proof.
  intros H. destruct ls; simpl.
  - intros c. apply tree_line_at_nl.
  - split; [reflexivity|]. intros c. unfold then_, bind.
    change (nl :: r) with ([nl] ++ r). now rewrite string_ok, H.
Qed.

Lemma stops_after_trailing (ls : list Line) (b : bool) :
  stops_after ls (if b then [nl] else []).
Proof.
  destruct b; [|apply stops_after_end].
  apply stops_after_nl. intros c. apply tree_line_at_end.
Qed.

Lemma parse_document (root : text) (ls : list Line) (b : bool) :
  one_line root = true -> lines_ok ls = true ->
  parse pom_tree (document root ls b) = Returns (triples_from 2 ls).
Proof.
  intros Hroot Hls.
  pose proof (parse_run root ls _ Hroot Hls (stops_after_trailing ls b)) as E.
  destruct b; exact E.
Qed.

Lemma parse_pom_tree_document (root : text) (ls : list Line) (b : bool) :
  one_line root = true -> lines_ok ls = true ->
  parse_pom_tree (Some (document root ls b)) = Returns (records_from 2 ls).
Proof.
  intros Hroot Hls.
  pose proof (parse_pom_tree_run root ls _ Hroot Hls
                (stops_after_trailing ls b)) as E.
  destruct b; exact E.
Qed.

(** ** Only those documents are accepted *)

Lemma times_once_inv {A} (p : Parser A) (min : nat) i vs i' :
  times p min (Some 1) i = Success vs i' ->
  (exists v, p i = Success v i' /\ vs = [v])
  \/ (p i = Failure /\ min = 0 /\ vs = [] /\ i' = i).
Proof.
  unfold times. cbn [times_loop below Nat.ltb].
  destruct (p i) as [v j| |]; intros H; try discriminate H.
  - inversion H; subst. eauto.
  - destruct min; [|discriminate H]. inversion H; subst. auto.
Qed.

Lemma next_lines_loop_inv :
  forall fuel times acc i vs i',
    times_loop fuel (string [nl] >> tree_line) 0 None times acc i
    = Success vs i' ->
    exists ls, lines_ok ls = true
               /\ remaining i = more_lines (List.map line_text ls) ++ remaining i'.
Proof.
  induction fuel as [|fuel IH]; intros times acc i vs i' H;
    [discriminate H|].
  cbn [times_loop below] in H.
  destruct ((string [nl] >> tree_line) i) as [v j| |] eqn:E;
    [| |discriminate H].
  - apply then_inv in E as (a & k & Hs & Ht).
    apply string_inv in Hs as (_ & Rs & _).
    apply tree_line_inv in Ht as (l & Hl & _ & _ & Rt & _).
    apply IH in H as (ls & Hls & R).
    exists (l :: ls). split; [simpl; now rewrite Hl|].
    rewrite Rs, Rt, R. unfold more_lines. simpl.
    now rewrite <- app_assoc.
  - exists []. inversion H; subst. auto.
Qed.

Lemma sep_by_inv i v i' :
  sep_by tree_line (string [nl]) i = Success v i' ->
  exists ls, lines_ok ls = true
             /\ remaining i = join_lines (List.map line_text ls) ++ remaining i'.
Proof.
  unfold sep_by. intros H. apply alt_inv in H as [H|[_ H]].
  - apply bind_inv in H as (xs & j & H1 & H).
    apply bind_inv in H as (ys & k & H2 & H). inversion H; subst. clear H.
    apply times_once_inv in H1 as [(t & Ht & ->)|(_ & Hmin & _)];
      [|discriminate Hmin].
    apply tree_line_inv in Ht as (l & Hl & _ & _ & Rt & _).
    apply next_lines_loop_inv in H2 as (ls & Hls & R).
    exists (l :: ls). split; [simpl; now rewrite Hl|].
    rewrite Rt, R. simpl. now rewrite <- app_assoc.
  - inversion H; subst. exists []. auto.
Qed.

Lemma pom_tree_inv i v i' :
  pom_tree i = Success v i' ->
  exists root ls (b : bool),
    one_line root = true /\ lines_ok ls = true
    /\ remaining i
       = root ++ nl :: join_lines (List.map line_text ls)
         ++ (if b then [nl] else []) ++ remaining i'.
Proof.
  unfold pom_tree. intros H.
  apply skip_inv in H as (j & o & H & Hopt).
  apply then_inv in H as (a & j1 & H & Hsep).
  apply then_inv in H as (root & j0 & Hroot & Hnl).
  apply consume_line_inv in Hroot as (Kroot & _ & R0 & _).
  apply string_inv in Hnl as (_ & R1 & _).
  apply sep_by_inv in Hsep as (ls & Hls & R2).
  rewrite optional_unfold in Hopt.
  destruct (string [nl] j) as [x k| |] eqn:E; try discriminate Hopt.
  - inversion Hopt; subst. apply string_inv in E as (_ & R3 & _).
    exists root, ls, true. rewrite R0, R1, R2, R3. auto.
  - inversion Hopt; subst.
    exists root, ls, false. rewrite R0, R1, R2. auto.
Qed.

Lemma parse_inv (stream : text) v :
  parse pom_tree stream = Returns v ->
  exists root ls b,
    one_line root = true /\ lines_ok ls = true
    /\ stream = document root ls b.
Proof.
  unfold parse. destruct ((pom_tree << eof) (mkInput [] stream)) as [w j| |] eqn:E;
    try discriminate. intros _.
  apply skip_inv in E as (k & u & Hp & He).
  apply pom_tree_inv in Hp as (root & ls & b & Hroot & Hls & R).
  unfold eof in He. destruct (remaining k) as [|a t] eqn:Ek;
    [|discriminate He].
  exists root, ls, b. simpl in R. rewrite app_nil_r in R. auto.
Qed.

(** The grammar accepts exactly the documents made of a root label and
    well-formed dependency lines, and gives their triples. *)
Lemma accepted_iff_document (stream : text) v :
  parse pom_tree stream = Returns v <->
  exists root ls b,
    one_line root = true /\ lines_ok ls = true
    /\ stream = document root ls b /\ v = triples_from 2 ls.
Proof.
  split.
  - intros H. destruct (parse_inv _ _ H) as (root & ls & b & Hroot & Hls & ->).
    rewrite (parse_document root ls b Hroot Hls) in H. inversion H.
    exists root, ls, b. auto.
  - intros (root & ls & b & Hroot & Hls & -> & ->).
    now apply parse_document.
Qed.

Lemma parse_never_hangs (stream : text) : parse pom_tree stream <> Hangs.
Proof.
  unfold parse. intros H.
  destruct ((pom_tree << eof) (mkInput [] stream)) eqn:E; try discriminate H.
  revert E. apply total_bind; [apply total_pom_tree|].
  intros a. auto with totality.
Qed.

(** ** Lines the grammar refuses *)

Lemma first_line_unique (x y r r' : text) :
  one_line x = true -> one_line y = true ->
  at_eol r = true -> at_eol r' = true ->
  x ++ r = y ++ r' -> x = y /\ r = r'.
Proof.
  intros Hx Hy Hr Hr' E.
  pose proof (span_app not_nl x r Hx (at_eol_stops r Hr)) as Sx.
  pose proof (span_app not_nl y r' Hy (at_eol_stops r' Hr')) as Sy.
  rewrite E, Sy in Sx. inversion Sx; auto.
Qed.

Lemma matches_line_ok (l : Line) :
  line_ok l = true -> matches_line (line_text l) = true.
Proof.
  intros Hl. unfold matches_line, skip, bind.
  pose proof (tree_line_ok l [] [] Hl eq_refl) as E.
  rewrite app_nil_r in E. now rewrite E.
Qed.

Lemma matches_line_inv (s : text) :
  matches_line s = true -> exists l, line_ok l = true /\ s = line_text l.
Proof.
  unfold matches_line.
  destruct ((tree_line << eof) (mkInput [] s)) as [v j| |] eqn:E;
    try discriminate. intros _.
  apply skip_inv in E as (k & u & Ht & He).
  apply tree_line_inv in Ht as (l & Hl & _ & _ & R & _).
  unfold eof in He. destruct (remaining k); [|discriminate He].
  exists l. simpl in R. rewrite app_nil_r in R. auto.
Qed.

Lemma tree_line_rejects (s r c : text) :
  one_line s = true -> at_eol r = true -> matches_line s = false ->
  tree_line (mkInput c (s ++ r)) = Failure.
Proof.
  intros Hs Hr Hm.
  destruct (tree_line (mkInput c (s ++ r))) as [v j| |] eqn:E;
    [exfalso|reflexivity|exfalso; now apply total_tree_line in E].
  apply tree_line_inv in E as (l & Hl & Hj & _ & R & _). simpl in R.
  apply first_line_unique in R as [-> _];
    auto using line_text_one_line.
  rewrite (matches_line_ok l Hl) in Hm. discriminate Hm.
Qed.

Lemma join_lines_snoc (ts : list text) (s : text) :
  join_lines (ts ++ [s])
  = match ts with
    | [] => s
    | _ :: _ => join_lines ts ++ nl :: s
    end.
Proof.
  destruct ts as [|t ts]; simpl; [now rewrite app_nil_r|].
  unfold more_lines. rewrite List.map_app, concat_app. simpl.
  now rewrite app_nil_r, <- app_assoc.
Qed.

Lemma drop_nl_other (a : ascii) (t : text) :
  is_nl a = false -> drop_nl (a :: t) = a :: t.
Proof.
  unfold drop_nl, is_nl. cbn [strip_prefix]. rewrite Ascii.eqb_sym.
  now intros ->.
Qed.

(** A line that is no dependency line, anywhere after well-formed ones,
    makes the whole parse fail. *)
Lemma bad_line_rejected (root : text) (ls : list Line) (s r : text) :
  one_line root = true -> lines_ok ls = true ->
  one_line s = true -> is_blank s = false -> matches_line s = false ->
  at_eol r = true ->
  parse pom_tree
    (root ++ nl :: join_lines (List.map line_text ls ++ [s]) ++ r)
  = Raises ParseError
  /\ parse_pom_tree
       (Some (root ++ nl :: join_lines (List.map line_text ls ++ [s]) ++ r))
     = Returns [].
Proof.
  intros Hroot Hls Hs Hb Hm Hr.
  pose proof (fun c => tree_line_rejects s r c Hs Hr Hm) as Hrej.
  rewrite join_lines_snoc.
  destruct s as [|a s]; [discriminate Hb|].
  assert (Ha : is_nl a = false).
  { simpl in Hs. apply andb_true_iff in Hs as [Ha _].
    unfold not_nl in Ha. now destruct (is_nl a). }
  destruct ls as [|l ls].
  - cbn [List.map].
    pose proof (parse_run root [] ((a :: s) ++ r) Hroot eq_refl Hrej) as E1.
    pose proof (parse_pom_tree_run root [] ((a :: s) ++ r) Hroot eq_refl Hrej)
      as E2.
    cbn [app] in E1, E2. rewrite (drop_nl_other a _ Ha) in E1, E2.
    cbn [is_blank join_lines List.map app] in E1, E2. auto.
  - assert (St : stops_after (l :: ls) (nl :: (a :: s) ++ r))
      by now apply stops_after_nl.
    pose proof (parse_run root (l :: ls) _ Hroot Hls St) as E1.
    pose proof (parse_pom_tree_run root (l :: ls) _ Hroot Hls St) as E2.
    cbn [List.map] in *. rewrite <- !app_assoc. cbn [app] in *. auto.
Qed.

Lemma parse_raises_only {A} (p : Parser A) (stream : text) (e : Exception) :
  parse p stream = Raises e -> e = ParseError.
Proof.
  unfold parse. destruct ((p << eof) (mkInput [] stream)); intros H;
    now inversion H.
Qed.

Lemma rejected_gives_empty (stream : text) (e : Exception) :
  parse pom_tree stream = Raises e -> parse_pom_tree (Some stream) = Returns [].
Proof. intros H. unfold parse_pom_tree, safe_path_parse. now rewrite H. Qed.

(** ** Colons in a line *)

Lemma count_colons_app (a b : text) :
  count_colons (a ++ b) = count_colons a + count_colons b.
Proof. apply count_occ_app. Qed.

Lemma count_colons_field (f r : text) :
  count_colons (f ++ colon :: r) = count_colons f + S (count_colons r).
Proof. rewrite count_colons_app. reflexivity. Qed.

Lemma line_text_colons (l : Line) : 4 <= count_colons (line_text l).
Proof.
  unfold line_text, coordinate_text.
  repeat (rewrite count_colons_field || rewrite count_colons_app). lia.
Qed.

Lemma few_colons_no_match (s : text) :
  count_colons s < 4 -> matches_line s = false.
Proof.
  intros H. destruct (matches_line s) eqn:E; [|reflexivity].
  apply matches_line_inv in E as (l & _ & ->).
  pose proof (line_text_colons l). lia.
Qed.

(** ** Blank lines inside a document *)

Lemma blank_inside_intro (p : bool) (a x : text) :
  blank_inside p (a ++ nl :: nl :: x) = true.
Proof.
  revert p. induction a as [|c a IH]; intros p; cbn [app blank_inside].
  - change (is_nl nl) with true. cbn. apply orb_true_r.
  - rewrite IH. apply orb_true_r.
Qed.

Lemma blank_inside_skip_line (p : bool) (a : ascii) (s r : text) :
  one_line (a :: s) = true ->
  blank_inside p ((a :: s) ++ r) = blank_inside false r.
Proof.
  revert p a. induction s as [|b s IH]; intros p a H;
    cbn [one_line forallb] in H; apply andb_true_iff in H as [Ha H];
    unfold not_nl in Ha; apply negb_true_iff in Ha;
    cbn [app blank_inside]; rewrite Ha, andb_false_r; cbn [orb].
  - reflexivity.
  - now apply (IH false b).
Qed.

Lemma blank_inside_root (root r : text) :
  one_line root = true ->
  blank_inside false (root ++ r) = blank_inside false r.
Proof.
  destruct root as [|a s]; [reflexivity|]. apply blank_inside_skip_line.
Qed.

Lemma blank_inside_line (p : bool) (l : Line) (r : text) :
  line_ok l = true ->
  blank_inside p (line_text l ++ r) = blank_inside false r.
Proof.
  intros Hl. pose proof (line_text_one_line l Hl) as H1.
  pose proof (line_text_not_blank l) as H2.
  destruct (line_text l) as [|a s]; [discriminate H2|].
  now apply blank_inside_skip_line.
Qed.

Lemma blank_inside_more_lines (ls : list Line) (b : bool) :
  lines_ok ls = true ->
  blank_inside false
    (more_lines (List.map line_text ls) ++ (if b then [nl] else []))
  = false.
Proof.
  induction ls as [|l ls IH]; intros Hls.
  - now destruct b.
  - simpl in Hls. apply andb_true_iff in Hls as [Hl Hls].
    unfold more_lines. cbn [List.map concat].
    fold (more_lines (List.map line_text ls)).
    cbn [app blank_inside andb orb]. rewrite <- app_assoc.
    rewrite (blank_inside_line _ l _ Hl). now apply IH.
Qed.

Lemma blank_inside_document (root : text) (ls : list Line) (b : bool) :
  one_line root = true -> lines_ok ls = true ->
  blank_inside false (document root ls b) = true -> ls = [] /\ b = true.
Proof.
  intros Hroot Hls. unfold document. rewrite (blank_inside_root _ _ Hroot).
  cbn [blank_inside andb orb]. change (is_nl nl) with true.
  destruct ls as [|l ls].
  - destruct b; [auto|discriminate].
  - simpl in Hls. apply andb_true_iff in Hls as [Hl Hls].
    cbn [List.map join_lines]. rewrite <- app_assoc.
    rewrite (blank_inside_line _ l _ Hl), (blank_inside_more_lines ls b Hls).
    discriminate.
Qed.

Lemma not_one_line_split (p : text) :
  one_line p = false ->
  exists p1 p2, p = p1 ++ nl :: p2 /\ one_line p1 = true.
Proof.
  intros H. destruct (span not_nl p) as [x y] eqn:E.
  apply span_inv in E as (-> & Hx & Hy).
  destruct y as [|c y].
  - rewrite app_nil_r in H. unfold one_line in H. congruence.
  - unfold not_nl in Hy. apply negb_false_iff in Hy.
    apply Ascii.eqb_eq in Hy. subst c. eauto.
Qed.

(** ** Splitting a document into lines *)

Lemma split_lines_app_nl (s r : text) :
  one_line s = true -> split_lines (s ++ nl :: r) = s :: split_lines r.
Proof.
  induction s as [|c s IH]; intros H.
  - reflexivity.
  - cbn [one_line forallb] in H. apply andb_true_iff in H as [Hc H].
    unfold not_nl in Hc. apply negb_true_iff in Hc.
    cbn [app split_lines]. rewrite Hc, (IH H). reflexivity.
Qed.

Lemma split_lines_one_line (s : text) :
  one_line s = true -> split_lines s = [s].
Proof.
  induction s as [|c s IH]; intros H.
  - reflexivity.
  - cbn [one_line forallb] in H. apply andb_true_iff in H as [Hc H].
    unfold not_nl in Hc. apply negb_true_iff in Hc.
    cbn [split_lines]. rewrite Hc, (IH H). reflexivity.
Qed.

Lemma split_lines_more (ts : list text) :
  forall (t : text) (b : bool),
    forallb one_line (t :: ts) = true ->
    split_lines (t ++ more_lines ts ++ (if b then [nl] else []))
    = t :: ts ++ (if b then [[]] else []).
Proof.
  induction ts as [|t' ts IH]; intros t b H;
    cbn [forallb] in H; apply andb_true_iff in H as [Ht H].
  - cbn [more_lines List.map concat app]. destruct b.
    + now rewrite split_lines_app_nl.
    + rewrite app_nil_r. now apply split_lines_one_line.
  - unfold more_lines. cbn [List.map concat]. fold (more_lines ts).
    cbn [app]. rewrite <- app_assoc, split_lines_app_nl by assumption.
    now rewrite IH.
Qed.

Lemma lines_ok_one_line (ls : list Line) :
  lines_ok ls = true -> forallb one_line (List.map line_text ls) = true.
Proof.
  induction ls as [|l ls IH]; [reflexivity|]. simpl. intros H.
  apply andb_true_iff in H as [Hl H].
  now rewrite (line_text_one_line l Hl), IH.
Qed.

(** The lines of a document: the root label, the dependency lines, and one
    or two empty strings where the text ends with a line feed. *)
Lemma split_lines_document (root : text) (ls : list Line) (b : bool) :
  one_line root = true -> lines_ok ls = true ->
  exists extra,
    split_lines (document root ls b)
    = root :: List.map line_text ls ++ extra
    /\ forallb is_blank extra = true.
Proof.
  intros Hroot Hls. unfold document.
  rewrite (split_lines_app_nl root _ Hroot).
  apply lines_ok_one_line in Hls.
  destruct ls as [|l ls].
  - destruct b; [exists [[]; []]|exists [[]]]; auto.
  - cbn [List.map join_lines] in *. rewrite <- app_assoc.
    rewrite (split_lines_more _ _ b Hls).
    exists (if b then [[]] else []). now destruct b.
Qed.

Lemma records_from_length (n : nat) (ls : list Line) :
  length (records_from n ls) = length ls.
Proof. revert n. induction ls; intros n; simpl; auto. Qed.

Lemma records_from_nth (ls : list Line) :
  forall n k r,
    nth_error (records_from n ls) k = Some r ->
    exists l, nth_error ls k = Some l /\ r = record_of (n + k) l.
Proof.
  induction ls as [|l ls IH]; intros n k r H.
  - destruct k; discriminate H.
  - destruct k as [|k]; simpl in H.
    + inversion H. exists l. now rewrite Nat.add_0_r.
    + apply IH in H as (l' & Hl' & ->). exists l'.
      now rewrite Nat.add_succ_r.
Qed.

Lemma nonblank_lines_count (ls : list Line) (extra : list text) :
  forallb is_blank extra = true ->
  length (filter (fun s => negb (is_blank s))
            (List.map line_text ls ++ extra))
  = length ls.
Proof.
  intros He. rewrite filter_app, length_app.
  assert (E1 : filter (fun s => negb (is_blank s)) extra = []).
  { induction extra as [|x extra IH]; [reflexivity|]. simpl in *.
    apply andb_true_iff in He as [Hx He]. rewrite Hx. simpl. auto. }
  rewrite E1. simpl. rewrite Nat.add_0_r.
  induction ls as [|l ls IH]; [reflexivity|]. simpl.
  rewrite line_text_not_blank. simpl. now rewrite IH.
Qed.

(** ** The samples, run *)

Example spring_aop_text :
  line_text spring_aop
  = lit "|     +- org.springframework:spring-aop:jar:5.3.9:compile".
Proof. reflexivity. Qed.

Example sample_document_parses :
  parse_pom_tree (Some (document sample_root sample_lines true))
  = Returns
      [ mkFoundDependency (lit "log4j-api") (lit "0.0.2") Maven [] Direct 2;
        mkFoundDependency (lit "maven-model") (lit "3.8.6") Maven []
          Transitive 3;
        mkFoundDependency (lit "plexus-component-annotations") (lit "1.5.5")
          Maven [] Transitive 4;
        mkFoundDependency (lit "jna") (lit "5.11.0") Maven [] Transitive 5;
        mkFoundDependency (lit "spring-aop") (lit "5.3.9") Maven []
          Transitive 6 ].
Proof. vm_compute. reflexivity. Qed.

Example root_only_document_parses :
  parse pom_tree (sample_root ++ [nl]) = Returns []
  /\ parse_pom_tree (Some (sample_root ++ [nl])) = Returns [].
Proof. split; vm_compute; reflexivity. Qed.

Example missing_glyph_rejected :
  parse pom_tree
    (sample_root ++ nl :: lit "org.apache.maven:maven-model:jar:3.8.6:provided")
  = Raises ParseError.
Proof. vm_compute. reflexivity. Qed.

(** * The claims *)

(** C1.  When the file cannot be read or the grammar rejects the document,
    [parse_pom_tree] returns the empty list: it neither raises nor hangs,
    and gives no partial list.  A document with a root label and no
    dependency gives the same empty list, so the two cannot be told
    apart.  Whatever the file, the call returns. *)
Theorem parse_pom_tree_swallows_failures (file : option text) :
  unreadable_or_rejected file = true ->
  parse_pom_tree file = Returns []
  /\ (forall root b,
        one_line root = true ->
        parse_pom_tree (Some (document root [] b)) = parse_pom_tree file)
  /\ (forall any, exists out, parse_pom_tree any = Returns out).
Proof.
  intros H. assert (E : parse_pom_tree file = Returns []).
  { destruct file as [stream|]; [|reflexivity]. simpl in H.
    destruct (parse pom_tree stream) as [v|e|] eqn:P; try discriminate H.
    exact (rejected_gives_empty stream e P). }
  split; [exact E|]. split.
  - intros root b Hroot. rewrite E.
    exact (parse_pom_tree_document root [] b Hroot eq_refl).
  - intros [stream|]; [|eexists; reflexivity].
    unfold parse_pom_tree, safe_path_parse.
    destruct (parse pom_tree stream) as [v|e|] eqn:P.
    + destruct v; eexists; reflexivity.
    + eexists; reflexivity.
    + now apply parse_never_hangs in P.
Qed.

Lemma parse_pom_tree_swallows_failures_witness :
  unreadable_or_rejected (Some (sample_root ++ nl :: three_field_line)) = true
  /\ parse_pom_tree (Some (sample_root ++ nl :: three_field_line)) = Returns []
  /\ parse_pom_tree (Some (document sample_root [] false))
     = parse_pom_tree (Some (sample_root ++ nl :: three_field_line)).
Proof.
  assert (H : unreadable_or_rejected
                (Some (sample_root ++ nl :: three_field_line)) = true)
    by (vm_compute; reflexivity).
  destruct (parse_pom_tree_swallows_failures _ H) as (E & Same & _).
  split; [exact H|]. split; [exact E|].
  apply Same. vm_compute. reflexivity.
Defined.

(** C2.  On [f1:f2:f3:f4:tail] the coordinate extractor returns the second
    segment as the name and the fourth as the version, and consumes the
    line to its end: the first and third segments and everything after the
    fourth colon, further colons included, do not reach the result. *)
Theorem dep_keeps_second_and_fourth (f1 f2 f3 f4 tail c r : text) :
  segment_ok f1 = true -> segment_ok f2 = true ->
  segment_ok f3 = true -> segment_ok f4 = true ->
  one_line tail = true -> at_eol r = true ->
  dep (mkInput c (coordinate_text f1 f2 f3 f4 tail ++ r))
  = Success (f2, f4) (mkInput (c ++ coordinate_text f1 f2 f3 f4 tail) r)
  /\ (forall g1 g3 tail',
        segment_ok g1 = true -> segment_ok g3 = true ->
        one_line tail' = true ->
        exists i',
          dep (mkInput c (coordinate_text g1 f2 g3 f4 tail' ++ r))
          = Success (f2, f4) i').
Proof.
  intros H1 H2 H3 H4 Ht Hr. split.
  - now apply dep_ok.
  - intros g1 g3 tail' G1 G3 Gt. eexists. now apply dep_ok.
Qed.

Lemma dep_keeps_second_and_fourth_witness :
  segment_ok (group_id log4j) = true /\ segment_ok (artifact log4j) = true
  /\ segment_ok (packaging log4j) = true /\ segment_ok (revision log4j) = true
  /\ one_line (lit "compile:tests:x") = true /\ at_eol [nl] = true
  /\ dep (mkInput []
            (lit "org.apache.logging.log4j:log4j-api:jar:0.0.2:compile:tests:x"
             ++ [nl]))
     = Success (lit "log4j-api", lit "0.0.2")
         (mkInput
            (lit "org.apache.logging.log4j:log4j-api:jar:0.0.2:compile:tests:x")
            [nl]).
Proof.
  repeat (split; [reflexivity|]).
  exact (proj1 (dep_keeps_second_and_fourth
                  (group_id log4j) (artifact log4j) (packaging log4j)
                  (revision log4j) (lit "compile:tests:x") [] [nl]
                  eq_refl eq_refl eq_refl eq_refl eq_refl eq_refl)).
Defined.

Lemma coordinate_text_colons (f1 f2 f3 f4 tail : text) :
  4 <= count_colons (coordinate_text f1 f2 f3 f4 tail).
Proof. unfold coordinate_text. rewrite !count_colons_field. lia. Qed.

Lemma dep_few_colons (c s r : text) :
  one_line s = true -> at_eol r = true -> count_colons s < 4 ->
  dep (mkInput c (s ++ r)) = Failure.
Proof.
  intros Hs Hr Hc.
  destruct (dep (mkInput c (s ++ r))) as [v j| |] eqn:E;
    [exfalso|reflexivity|exfalso; now apply total_dep in E].
  apply dep_inv in E
    as (f1 & f2 & f3 & f4 & tail & K1 & K2 & K3 & K4 & Kt & Hj & _ & R & _).
  simpl in R. apply first_line_unique in R as [-> _];
    auto using coordinate_text_one_line.
  pose proof (coordinate_text_colons f1 f2 f3 f4 tail). lia.
Qed.

(** C3, as the code has it.  The coordinate extractor succeeds exactly when
    the text up to the end of the line starts with four non-empty
    colon-free segments, each followed by its colon; what follows the
    fourth colon is the tail.  With fewer than four colons before the end
    of the line it fails, and a document with such a line after
    well-formed ones makes [parse_pom_tree] return the empty list. *)
Theorem dep_needs_four_colons :
  (forall c s,
      (exists v i', dep (mkInput c s) = Success v i') <->
      (exists f1 f2 f3 f4 tail r,
          segment_ok f1 = true /\ segment_ok f2 = true
          /\ segment_ok f3 = true /\ segment_ok f4 = true
          /\ one_line tail = true /\ at_eol r = true
          /\ s = coordinate_text f1 f2 f3 f4 tail ++ r))
  /\ (forall c s r,
         one_line s = true -> at_eol r = true -> count_colons s < 4 ->
         dep (mkInput c (s ++ r)) = Failure)
  /\ (forall root ls bad r,
         one_line root = true -> lines_ok ls = true ->
         one_line bad = true -> is_blank bad = false ->
         count_colons bad < 4 -> at_eol r = true ->
         parse_pom_tree
           (Some (root ++ nl :: join_lines (List.map line_text ls ++ [bad]) ++ r))
         = Returns []).
Proof.
  split; [|split].
  - intros c s. split.
    + intros (v & i' & E). apply dep_inv in E
        as (f1 & f2 & f3 & f4 & tail & K1 & K2 & K3 & K4 & Kt & Hj & _ & R & _).
      exists f1, f2, f3, f4, tail, (remaining i'). auto 10.
    + intros (f1 & f2 & f3 & f4 & tail & r & K1 & K2 & K3 & K4 & Kt & Hr & ->).
      eexists. eexists. now apply dep_ok.
  - exact dep_few_colons.
  - intros root ls bad r Hroot Hls Hbad Hb Hc Hr.
    now apply bad_line_rejected; auto using few_colons_no_match.
Qed.

Lemma dep_needs_four_colons_witness :
  (one_line (lit "group:artifact:jar:1.0") = true /\ at_eol [] = true
   /\ count_colons (lit "group:artifact:jar:1.0") < 4
   /\ dep (mkInput [] (lit "group:artifact:jar:1.0" ++ [])) = Failure)
  /\ (one_line sample_root = true /\ lines_ok [log4j] = true
      /\ one_line three_field_line = true
      /\ is_blank three_field_line = false
      /\ count_colons three_field_line < 4 /\ at_eol [] = true
      /\ parse_pom_tree
           (Some (sample_root
                  ++ nl :: join_lines (List.map line_text [log4j]
                                       ++ [three_field_line]) ++ []))
         = Returns []).
Proof.
  destruct dep_needs_four_colons as (_ & Few & Doc).
  split.
  - repeat (split; [first [reflexivity|vm_compute; lia]|]).
    apply Few; [reflexivity|reflexivity|vm_compute; lia].
  - repeat (split; [first [reflexivity|vm_compute; lia]|]).
    apply Doc; first [reflexivity|vm_compute; lia].
Defined.

(** C3 as stated fails: a coordinate of exactly four segments with nothing
    after the version is refused, and the document that holds it gives the
    empty list. *)
Lemma four_segments_without_tail_refused :
  count_colons (lit "group:artifact:jar:1.0") = 3
  /\ dep (mkInput [] (lit "group:artifact:jar:1.0")) = Failure
  /\ parse pom_tree (sample_root ++ nl :: no_scope_line) = Raises ParseError
  /\ parse_pom_tree (Some (sample_root ++ nl :: no_scope_line)) = Returns [].
Proof. repeat split; vm_compute; reflexivity. Qed.

(** C4.  On a dependency line the markers are all consumed, whichever their
    spelling, and their number is the depth; the record is [Direct] exactly
    at depth 0 and [Transitive] exactly at depth 1 or more; the same line
    behind any other markers of the same number and any glyph gives the
    same result. *)
Theorem depth_decides_transitivity (l : Line) (c r : text) :
  line_ok l = true -> at_eol r = true ->
  exists tr,
    indentation (mkInput c (line_text l ++ r))
    = Success (List.map marker_text (indent l))
        (mkInput (c ++ indent_text (indent l))
           (glyph_text (glyph l)
            ++ coordinate_text (group_id l) (artifact l) (packaging l)
                 (revision l) (scope_tail l) ++ r))
    /\ length (List.map marker_text (indent l)) = depth l
    /\ tree_line (mkInput c (line_text l ++ r))
       = Success (count_nl c + 1, (tr, artifact l, revision l))
           (mkInput (c ++ line_text l) r)
    /\ (tr = Direct <-> depth l = 0)
    /\ (tr = Transitive <-> 1 <= depth l)
    /\ (forall ms g,
          length ms = depth l ->
          tree_line (mkInput c (line_text (with_prefix ms g l) ++ r))
          = Success (count_nl c + 1, (tr, artifact l, revision l))
              (mkInput (c ++ line_text (with_prefix ms g l)) r)).
Proof.
  intros Hl Hr. exists (transitivity_of_depth (depth l)).
  split; [|split; [|split; [|split; [|split]]]].
  - unfold line_text. rewrite <- !app_assoc. apply indentation_ok.
  - apply length_map.
  - exact (tree_line_ok l c r Hl Hr).
  - unfold transitivity_of_depth. destruct (depth l); simpl;
      split; intros H; congruence.
  - unfold transitivity_of_depth. destruct (depth l); simpl;
      split; intros H; try congruence; lia.
  - intros ms g Hms.
    assert (Hl' : line_ok (with_prefix ms g l) = true) by exact Hl.
    rewrite (tree_line_ok _ c r Hl' Hr).
    unfold triple_of, depth. cbn [with_prefix indent artifact revision].
    now rewrite Hms.
Qed.

Lemma depth_decides_transitivity_witness :
  line_ok plexus = true /\ at_eol [nl] = true
  /\ tree_line (mkInput (sample_root ++ [nl]) (line_text plexus ++ [nl]))
     = Success
         (2, (Transitive, lit "plexus-component-annotations", lit "1.5.5"))
         (mkInput ((sample_root ++ [nl]) ++ line_text plexus) [nl])
  /\ tree_line
       (mkInput (sample_root ++ [nl])
          (line_text (with_prefix [Blank; Bar] Tee plexus) ++ [nl]))
     = Success
         (2, (Transitive, lit "plexus-component-annotations", lit "1.5.5"))
         (mkInput
            ((sample_root ++ [nl])
             ++ line_text (with_prefix [Blank; Bar] Tee plexus)) [nl]).
Proof.
  destruct (depth_decides_transitivity plexus (sample_root ++ [nl]) [nl]
              eq_refl eq_refl) as (tr & _ & _ & E & _ & T & Same).
  assert (Htr : tr = Transitive) by (apply T; vm_compute; lia).
  subst tr. split; [reflexivity|]. split; [reflexivity|].
  split; [exact E|]. exact (Same [Blank; Bar] Tee eq_refl).
Defined.

(** C5.  For a well-formed document, each record's [line_number] is the
    1-based position of the line it comes from, the root label being
    line 1: the record at position [k] comes from the dependency line at
    position [k], carries the number [k + 2], and the line of the document
    with that number is that dependency line. *)
Theorem line_numbers_match_document (root : text) (ls : list Line) (b : bool) :
  one_line root = true -> lines_ok ls = true ->
  exists out,
    parse_pom_tree (Some (document root ls b)) = Returns out
    /\ nth_error (split_lines (document root ls b)) 0 = Some root
    /\ forall k rec,
         nth_error out k = Some rec ->
         exists l,
           nth_error ls k = Some l
           /\ package rec = artifact l /\ version rec = revision l
           /\ line_number rec = k + 2
           /\ nth_error (split_lines (document root ls b))
                (line_number rec - 1)
              = Some (line_text l).
Proof.
  intros Hroot Hls. exists (records_from 2 ls).
  destruct (split_lines_document root ls b Hroot Hls) as (extra & Sp & _).
  split; [now apply parse_pom_tree_document|].
  split; [now rewrite Sp|].
  intros k rec Hk. apply records_from_nth in Hk as (l & Hl & ->).
  exists l. cbn [record_of package version line_number].
  repeat split; auto; [lia|].
  rewrite Sp. replace (2 + k - 1) with (S k) by lia. cbn [nth_error].
  rewrite nth_error_app1 by (rewrite length_map; apply nth_error_Some; congruence).
  now apply map_nth_error.
Qed.

Lemma line_numbers_match_document_witness :
  one_line sample_root = true /\ lines_ok sample_lines = true
  /\ exists out,
       parse_pom_tree (Some (document sample_root sample_lines true))
       = Returns out
       /\ List.map line_number out = [2; 3; 4; 5; 6]
       /\ nth_error (split_lines (document sample_root sample_lines true)) 3
          = Some (line_text plexus).
Proof.
  split; [reflexivity|]. split; [reflexivity|].
  destruct (line_numbers_match_document sample_root sample_lines true
              eq_refl eq_refl) as (out & E & _ & _).
  exists out. split; [exact E|].
  assert (E' : parse_pom_tree (Some (document sample_root sample_lines true))
               = Returns (records_from 2 sample_lines))
    by (vm_compute; reflexivity).
  rewrite E' in E. inversion E. split; vm_compute; reflexivity.
Defined.

(** C6.  For a well-formed document there are as many records as
    dependency lines, which are the lines after the root label that are not
    blank.  A line after well-formed ones that is no dependency line makes
    the whole parse fail: the result is the empty list, not the records of
    the lines before it. *)
Theorem one_record_per_line (root : text) (ls : list Line) (b : bool) :
  one_line root = true -> lines_ok ls = true ->
  (exists out,
      parse_pom_tree (Some (document root ls b)) = Returns out
      /\ length out = length ls
      /\ length out
         = length (filter (fun s => negb (is_blank s))
                     (tl (split_lines (document root ls b)))))
  /\ (forall bad r,
         one_line bad = true -> is_blank bad = false ->
         matches_line bad = false -> at_eol r = true ->
         parse pom_tree
           (root ++ nl :: join_lines (List.map line_text ls ++ [bad]) ++ r)
         = Raises ParseError
         /\ parse_pom_tree
              (Some (root ++ nl
                     :: join_lines (List.map line_text ls ++ [bad]) ++ r))
            = Returns []).
Proof.
  intros Hroot Hls. split.
  - exists (records_from 2 ls).
    destruct (split_lines_document root ls b Hroot Hls) as (extra & Sp & He).
    split; [now apply parse_pom_tree_document|].
    rewrite records_from_length, Sp. cbn [tl].
    now rewrite nonblank_lines_count.
  - intros bad r Hbad Hb Hm Hr. now apply bad_line_rejected.
Qed.

Lemma one_record_per_line_witness :
  one_line sample_root = true /\ lines_ok [log4j; maven_model] = true
  /\ one_line (lit "|  org.apache.maven:maven-model:jar:3.8.6") = true
  /\ is_blank (lit "|  org.apache.maven:maven-model:jar:3.8.6") = false
  /\ matches_line (lit "|  org.apache.maven:maven-model:jar:3.8.6") = false
  /\ at_eol (nl :: line_text jna) = true
  /\ parse_pom_tree
       (Some (sample_root ++ nl
              :: join_lines
                   (List.map line_text [log4j; maven_model]
                    ++ [lit "|  org.apache.maven:maven-model:jar:3.8.6"])
              ++ nl :: line_text jna))
     = Returns [].
Proof.
  repeat (split; [vm_compute; reflexivity|]).
  destruct (one_record_per_line sample_root [log4j; maven_model] false
              eq_refl eq_refl) as (_ & Bad).
  apply (Bad (lit "|  org.apache.maven:maven-model:jar:3.8.6")
             (nl :: line_text jna)); vm_compute; reflexivity.
Defined.

Lemma records_from_fields (n : nat) (ls : list Line) :
  List.map package (records_from n ls) = List.map artifact ls
  /\ List.map version (records_from n ls) = List.map revision ls
  /\ List.map transitivity (records_from n ls)
     = List.map (fun l => transitivity_of_depth (depth l)) ls
  /\ List.map line_number (records_from n ls) = seq n (length ls)
  /\ Forall (fun r => ecosystem r = Maven /\ allowed_hashes r = [])
       (records_from n ls).
Proof.
  revert n. induction ls as [|l ls IH]; intros n; simpl.
  - auto.
  - destruct (IH (S n)) as (-> & -> & -> & -> & F). auto 10.
Qed.

(** C7.  For a well-formed document the records come in the order of the
    lines: name, version and transitivity of the record at each position
    are those of the line at that position and the line numbers go up from
    2; every record has the ecosystem [Maven] and no allowed hash. *)
Theorem records_in_document_order (root : text) (ls : list Line) (b : bool) :
  one_line root = true -> lines_ok ls = true ->
  exists out,
    parse_pom_tree (Some (document root ls b)) = Returns out
    /\ List.map package out = List.map artifact ls
    /\ List.map version out = List.map revision ls
    /\ List.map transitivity out
       = List.map (fun l => transitivity_of_depth (depth l)) ls
    /\ List.map line_number out = seq 2 (length ls)
    /\ Forall (fun r => ecosystem r = Maven /\ allowed_hashes r = []) out.
Proof.
  intros Hroot Hls. exists (records_from 2 ls).
  split; [now apply parse_pom_tree_document|apply records_from_fields].
Qed.

Lemma records_in_document_order_witness :
  one_line sample_root = true /\ lines_ok sample_lines = true
  /\ exists out,
       parse_pom_tree (Some (document sample_root sample_lines false))
       = Returns out
       /\ List.map package out
          = [lit "log4j-api"; lit "maven-model";
             lit "plexus-component-annotations"; lit "jna"; lit "spring-aop"]
       /\ List.map transitivity out
          = [Direct; Transitive; Transitive; Transitive; Transitive].
Proof.
  split; [reflexivity|]. split; [reflexivity|].
  destruct (records_in_document_order sample_root sample_lines false
              eq_refl eq_refl) as (out & E & P & _ & T & _).
  exists out. split; [exact E|]. split; [exact P|exact T].
Defined.

(** C8.  One line feed after a well-formed document changes nothing: the
    records are the same with and without it, one per dependency line, and
    nothing is parsed as a line after that line feed. *)
Theorem trailing_newline_ignored (root : text) (ls : list Line) :
  one_line root = true -> lines_ok ls = true ->
  document root ls true = document root ls false ++ [nl]
  /\ parse_pom_tree (Some (document root ls false ++ [nl]))
     = parse_pom_tree (Some (document root ls false))
  /\ (exists out,
         parse_pom_tree (Some (document root ls false ++ [nl])) = Returns out
         /\ length out = length ls)
  /\ matches_line [] = false
  /\ (forall c, tree_line (mkInput c []) = Failure).
Proof.
  intros Hroot Hls.
  assert (E : document root ls true = document root ls false ++ [nl]).
  { unfold document. now rewrite app_nil_r, <- app_assoc. }
  split; [exact E|]. rewrite <- E.
  rewrite !parse_pom_tree_document by assumption.
  split; [reflexivity|]. split.
  - eexists. split; [reflexivity|apply records_from_length].
  - split; [reflexivity|apply tree_line_at_end].
Qed.

Lemma trailing_newline_ignored_witness :
  one_line sample_root = true /\ lines_ok sample_lines = true
  /\ parse_pom_tree (Some (document sample_root sample_lines false ++ [nl]))
     = parse_pom_tree (Some (document sample_root sample_lines false)).
Proof.
  split; [reflexivity|]. split; [reflexivity|].
  exact (proj1 (proj2 (trailing_newline_ignored sample_root sample_lines
                         eq_refl eq_refl))).
Defined.

(** Two line feeds in a row, with more than a root label before them or
    anything after them, are refused. *)
Lemma adjacent_line_feeds_rejected (p x : text) :
  negb (is_blank x) || negb (one_line p) = true ->
  parse pom_tree (p ++ nl :: nl :: x) = Raises ParseError
  /\ parse_pom_tree (Some (p ++ nl :: nl :: x)) = Returns [].
Proof.
  intros H.
  assert (E : parse pom_tree (p ++ nl :: nl :: x) = Raises ParseError).
  { destruct (parse pom_tree (p ++ nl :: nl :: x)) as [v|e|] eqn:P.
    - exfalso. apply parse_inv in P as (root & ls & b & Hroot & Hls & D).
      pose proof (blank_inside_intro false p x) as B. rewrite D in B.
      apply blank_inside_document in B as [-> ->]; try assumption.
      unfold document in D. cbn [List.map join_lines app] in D.
      destruct (one_line p) eqn:Hp.
      + apply first_line_unique in D as [_ D]; auto.
        inversion D; subst x. discriminate H.
      + apply not_one_line_split in Hp as (p1 & p2 & -> & Hp1).
        rewrite <- app_assoc in D. cbn [app] in D.
        apply first_line_unique in D as [_ D]; auto.
        apply (f_equal (@length ascii)) in D.
        cbn [length] in D. rewrite length_app in D. cbn [length] in D. lia.
    - now rewrite (parse_raises_only _ _ _ P).
    - now apply parse_never_hangs in P. }
  split; [exact E|]. exact (rejected_gives_empty _ _ E).
Qed.

(** C9, as the code has it.  A document in which a line feed directly
    follows another one has a blank line after its first line that is not
    the end of the text.  The grammar rejects it, as with a blank line
    between two dependency lines or two line feeds after the last one,
    unless it is a root label followed by two line feeds and nothing else:
    that one parses, to no dependency.  In every case [parse_pom_tree]
    returns the empty list. *)
Theorem blank_line_after_first_line (p x : text) :
  (negb (is_blank x) || negb (one_line p) = true ->
   parse pom_tree (p ++ nl :: nl :: x) = Raises ParseError)
  /\ (negb (is_blank x) || negb (one_line p) = false ->
      parse pom_tree (p ++ nl :: nl :: x) = Returns [])
  /\ parse_pom_tree (Some (p ++ nl :: nl :: x)) = Returns [].
Proof.
  assert (Only : negb (is_blank x) || negb (one_line p) = false ->
                 parse pom_tree (p ++ nl :: nl :: x) = Returns []
                 /\ parse_pom_tree (Some (p ++ nl :: nl :: x)) = Returns []).
  { intros H. apply orb_false_iff in H as [Hx Hp].
    apply negb_false_iff in Hx, Hp. destruct x; [|discriminate Hx].
    split.
    - exact (parse_document p [] true Hp eq_refl).
    - exact (parse_pom_tree_document p [] true Hp eq_refl). }
  split; [|split].
  - intros H. now apply adjacent_line_feeds_rejected.
  - intros H. now apply Only.
  - destruct (negb (is_blank x) || negb (one_line p)) eqn:H.
    + now apply adjacent_line_feeds_rejected.
    + now apply Only.
Qed.

Lemma blank_line_after_first_line_witness :
  (negb (is_blank (line_text jna))
   || negb (one_line (sample_root ++ nl :: line_text log4j)) = true
   /\ parse pom_tree
        ((sample_root ++ nl :: line_text log4j) ++ nl :: nl :: line_text jna)
      = Raises ParseError)
  /\ (negb (is_blank [])
      || negb (one_line (sample_root ++ nl :: line_text log4j)) = true
      /\ parse pom_tree
           ((sample_root ++ nl :: line_text log4j) ++ nl :: nl :: [])
         = Raises ParseError)
  /\ (negb (is_blank []) || negb (one_line sample_root) = false
      /\ parse pom_tree (sample_root ++ nl :: nl :: []) = Returns []).
Proof.
  split; [|split]; (split; [reflexivity|]).
  - exact (proj1 (blank_line_after_first_line
                    (sample_root ++ nl :: line_text log4j) (line_text jna))
             eq_refl).
  - exact (proj1 (blank_line_after_first_line
                    (sample_root ++ nl :: line_text log4j) []) eq_refl).
  - exact (proj1 (proj2 (blank_line_after_first_line sample_root []))
             eq_refl).
Defined.

(** C9 as stated fails.  With two line feeds after the root label and
    nothing else the parse does not fail, it gives the empty list of
    triples; and a document whose first line is blank gives a record. *)
Lemma blank_lines_that_parse :
  parse pom_tree (sample_root ++ [nl; nl]) = Returns []
  /\ parse_pom_tree (Some (nl :: line_text log4j))
     = Returns [record_of 2 log4j].
Proof. split; vm_compute; reflexivity. Qed.

Lemma segment_ok_not_empty (s : text) : segment_ok s = true -> s <> [].
Proof. destruct s; [discriminate|congruence]. Qed.

Lemma records_from_named (n : nat) (ls : list Line) :
  lines_ok ls = true ->
  Forall (fun r => package r <> [] /\ version r <> []) (records_from n ls).
Proof.
  revert n. induction ls as [|l ls IH]; intros n H; simpl; [constructor|].
  simpl in H. apply andb_true_iff in H as [Hl H].
  apply line_ok_fields in Hl as (_ & H2 & _ & H4 & _).
  constructor; [|now apply IH].
  split; now apply segment_ok_not_empty.
Qed.

Lemma returned_records (stream : text) (out : list FoundDependency) :
  parse_pom_tree (Some stream) = Returns out ->
  out = []
  \/ exists root ls b,
       one_line root = true /\ lines_ok ls = true
       /\ stream = document root ls b /\ out = records_from 2 ls.
Proof.
  unfold parse_pom_tree, safe_path_parse.
  destruct (parse pom_tree stream) as [v|e|] eqn:P.
  - apply accepted_iff_document in P
      as (root & ls & b & Hroot & Hls & -> & ->).
    intros H. right. exists root, ls, b. repeat split; auto.
    rewrite <- records_of_triples.
    destruct (triples_from 2 ls); now inversion H.
  - intros H. inversion H. auto.
  - discriminate.
Qed.

Lemma segment_chars_one_line (s : text) :
  forallb segment_char s = true -> one_line s = true.
Proof.
  intros H. unfold one_line. rewrite forallb_forall in *.
  intros c Hc. apply segment_char_not_nl. auto.
Qed.

Lemma segment_chars_cases (s : text) :
  forallb segment_char s = true -> s = [] \/ segment_ok s = true.
Proof. destruct s; auto. Qed.

Lemma spans_ok_fields (l : Line) :
  spans_ok l = true ->
  forallb segment_char (group_id l) = true
  /\ forallb segment_char (artifact l) = true
  /\ forallb segment_char (packaging l) = true
  /\ forallb segment_char (revision l) = true
  /\ one_line (scope_tail l) = true.
Proof.
  unfold spans_ok. intros H.
  repeat (apply andb_true_iff in H as [H ?]). auto.
Qed.

Lemma line_ok_spans (l : Line) :
  line_ok l = spans_ok l && negb (has_empty_segment l).
Proof.
  unfold line_ok, spans_ok, has_empty_segment, segment_ok.
  destruct (group_id l), (artifact l), (packaging l), (revision l);
    cbn [is_blank orb negb andb];
    rewrite ?andb_false_r, ?andb_true_r; reflexivity.
Qed.

Lemma upto_empty_segment (c r : text) :
  upto [colon] true (mkInput c (colon :: r)) = Failure.
Proof. reflexivity. Qed.

(** A coordinate one of whose four segments is empty is refused, at the
    [upto] that meets the colon with nothing before it. *)
Lemma dep_empty_segment (f1 f2 f3 f4 rest c : text) :
  forallb segment_char f1 = true -> forallb segment_char f2 = true ->
  forallb segment_char f3 = true -> forallb segment_char f4 = true ->
  is_blank f1 || is_blank f2 || is_blank f3 || is_blank f4 = true ->
  dep (mkInput c (coordinate_text f1 f2 f3 f4 rest)) = Failure.
Proof.
  intros H1 H2 H3 H4 He. unfold dep, coordinate_text, then_.
  destruct (segment_chars_cases f1 H1) as [->|K1];
    [cbn [app]; unfold bind at 1; now rewrite upto_empty_segment|].
  unfold bind at 1. rewrite (upto_ok f1 _ _ K1).
  destruct (segment_chars_cases f2 H2) as [->|K2];
    [cbn [app]; unfold bind at 1; now rewrite upto_empty_segment|].
  unfold bind at 1. rewrite (upto_ok f2 _ _ K2).
  destruct (segment_chars_cases f3 H3) as [->|K3];
    [cbn [app]; unfold bind at 1; now rewrite upto_empty_segment|].
  unfold bind at 1. rewrite (upto_ok f3 _ _ K3).
  destruct (segment_chars_cases f4 H4) as [->|K4];
    [cbn [app]; unfold bind at 1; now rewrite upto_empty_segment|].
  exfalso. destruct f1, f2, f3, f4; discriminate.
Qed.

Lemma tree_line_empty_segment (l : Line) (c r : text) :
  spans_ok l = true -> has_empty_segment l = true ->
  tree_line (mkInput c (line_text l ++ r)) = Failure.
Proof.
  intros Hs He. apply spans_ok_fields in Hs as (H1 & H2 & H3 & H4 & _).
  unfold tree_line, mark_line, current_line, line_info, map, then_, line_text.
  unfold bind at 1. unfold bind at 1. unfold success at 1.
  unfold bind at 1. unfold bind at 1.
  rewrite <- !app_assoc. rewrite indentation_ok.
  unfold bind at 1. rewrite branch_ok.
  unfold bind at 1.
  assert (E : coordinate_text (group_id l) (artifact l) (packaging l)
                (revision l) (scope_tail l) ++ r
              = coordinate_text (group_id l) (artifact l) (packaging l)
                  (revision l) (scope_tail l ++ r)).
  { unfold coordinate_text.
    repeat (rewrite <- ?app_assoc; cbn [app]). reflexivity. }
  rewrite E, dep_empty_segment; auto.
Qed.

Lemma spans_ok_one_line (l : Line) :
  spans_ok l = true -> one_line (line_text l) = true.
Proof.
  intros Hs. apply spans_ok_fields in Hs as (H1 & H2 & H3 & H4 & Ht).
  apply segment_chars_one_line in H1, H2, H3, H4.
  unfold line_text, coordinate_text.
  rewrite !one_line_app, indent_text_one_line, glyph_text_one_line.
  repeat (rewrite one_line_app || (unfold one_line at 1; cbn [forallb];
          fold (one_line))).
  cbn. unfold one_line in *. now rewrite H1, H2, H3, H4, Ht.
Qed.

(** C10, as the code has it.  Each of the four segments of a coordinate
    must hold at least one character, and one is enough.  A line whose
    fields are free of colons and line feeds is parsed by [tree_line]
    exactly when none of its four segments is empty; with an empty segment
    after well-formed lines the whole parse fails and the result is the
    empty list; no record ever has an empty name or version; a line whose
    segments are single characters is accepted. *)
Theorem segments_are_not_empty :
  (forall l c r,
      spans_ok l = true -> at_eol r = true ->
      (exists v i', tree_line (mkInput c (line_text l ++ r)) = Success v i')
      <-> has_empty_segment l = false)
  /\ (forall root ls l r,
         one_line root = true -> lines_ok ls = true ->
         spans_ok l = true -> has_empty_segment l = true ->
         at_eol r = true ->
         parse pom_tree
           (root ++ nl
            :: join_lines (List.map line_text ls ++ [line_text l]) ++ r)
         = Raises ParseError
         /\ parse_pom_tree
              (Some (root ++ nl
                     :: join_lines (List.map line_text ls ++ [line_text l])
                     ++ r))
            = Returns [])
  /\ (forall stream out,
         parse_pom_tree (Some stream) = Returns out ->
         Forall (fun r => package r <> [] /\ version r <> []) out)
  /\ (forall i n tr name ver i',
         tree_line i = Success (n, (tr, name, ver)) i' ->
         name <> [] /\ ver <> [])
  /\ (forall root a b c d tail,
         one_line root = true ->
         segment_char a = true -> segment_char b = true ->
         segment_char c = true -> segment_char d = true ->
         one_line tail = true ->
         parse_pom_tree
           (Some (root ++ nl :: lit "+- "
                  ++ [a; colon; b; colon; c; colon; d; colon] ++ tail))
         = Returns [mkFoundDependency [b] [d] Maven [] Direct 2]).
Proof.
  split; [|split; [|split; [|split]]].
  - intros l c r Hs Hr. split.
    + intros (v & i' & E). destruct (has_empty_segment l) eqn:He;
        [|reflexivity].
      rewrite (tree_line_empty_segment l c r Hs He) in E. discriminate E.
    + intros He. eexists. eexists. apply tree_line_ok; [|exact Hr].
      now rewrite line_ok_spans, Hs, He.
  - intros root ls l r Hroot Hls Hs He Hr.
    apply bad_line_rejected; auto.
    + now apply spans_ok_one_line.
    + apply line_text_not_blank.
    + unfold matches_line, skip, bind.
      pose proof (tree_line_empty_segment l [] [] Hs He) as F.
      rewrite app_nil_r in F. now rewrite F.
  - intros stream out H.
    apply returned_records in H
      as [->|(root & ls & b & _ & Hls & _ & ->)]; [constructor|].
    now apply records_from_named.
  - intros i n tr name ver i' H.
    apply tree_line_inv in H as (l & Hl & _ & E & _).
    apply line_ok_fields in Hl as (_ & H2 & _ & H4 & _).
    unfold triple_of in E. inversion E; subst.
    split; now apply segment_ok_not_empty.
  - intros root a b c d tail Hroot Ha Hb Hc Hd Ht.
    assert (Hl : lines_ok [mkLine [] Tee [a] [b] [c] [d] tail] = true).
    { unfold lines_ok, line_ok, segment_ok. simpl.
      now rewrite Ha, Hb, Hc, Hd, Ht. }
    pose proof (parse_pom_tree_document root _ false Hroot Hl) as E.
    unfold document, line_text, coordinate_text in E.
    cbn [List.map join_lines more_lines concat indent glyph group_id artifact
         packaging revision scope_tail indent_text glyph_text app] in E.
    rewrite !app_nil_r in E. exact E.
Qed.

Lemma segments_are_not_empty_witness :
  (spans_ok (mkLine [Bar] Tee (lit "g") [] (lit "jar") (lit "1.0")
               (lit "compile")) = true
   /\ has_empty_segment (mkLine [Bar] Tee (lit "g") [] (lit "jar") (lit "1.0")
                           (lit "compile")) = true
   /\ one_line sample_root = true /\ lines_ok [log4j] = true
   /\ at_eol [] = true
   /\ parse_pom_tree
        (Some (sample_root ++ nl
               :: join_lines
                    (List.map line_text [log4j]
                     ++ [line_text (mkLine [Bar] Tee (lit "g") [] (lit "jar")
                                      (lit "1.0") (lit "compile"))])
               ++ []))
      = Returns [])
  /\ (parse_pom_tree (Some (document sample_root sample_lines true))
      = Returns (records_from 2 sample_lines)
      /\ Forall (fun r => package r <> [] /\ version r <> [])
           (records_from 2 sample_lines))
  /\ (one_line sample_root = true
      /\ segment_char "a" = true /\ segment_char "b" = true
      /\ segment_char "c" = true /\ segment_char "d" = true
      /\ one_line (lit "e") = true
      /\ parse_pom_tree (Some (sample_root ++ nl :: lit "+- a:b:c:d:e"))
         = Returns [mkFoundDependency (lit "b") (lit "d") Maven [] Direct 2]).
Proof.
  destruct segments_are_not_empty as (_ & Refused & Named & _ & Single).
  split; [|split].
  - do 5 (split; [reflexivity|]).
    exact (proj2 (Refused sample_root [log4j]
                    (mkLine [Bar] Tee (lit "g") [] (lit "jar") (lit "1.0")
                       (lit "compile")) []
                    eq_refl eq_refl eq_refl eq_refl eq_refl)).
  - assert (E : parse_pom_tree (Some (document sample_root sample_lines true))
                = Returns (records_from 2 sample_lines))
      by (vm_compute; reflexivity).
    split; [exact E|exact (Named _ _ E)].
  - do 6 (split; [reflexivity|]).
    exact (Single sample_root "a"%char "b"%char "c"%char "d"%char (lit "e")
             eq_refl eq_refl eq_refl eq_refl eq_refl eq_refl).
Defined.

(** C10 as stated fails: the line [+- ::::], whose segments are all empty,
    is refused, and the document that holds it gives no record. *)
Lemma empty_segments_refused :
  tree_line (mkInput (sample_root ++ [nl]) empty_segments_line) = Failure
  /\ parse pom_tree (sample_root ++ nl :: empty_segments_line)
     = Raises ParseError
  /\ parse_pom_tree (Some (sample_root ++ nl :: empty_segments_line))
     = Returns [].
Proof. repeat split; vm_compute; reflexivity. Qed.

(** * Further properties of the grammar and of the entry point *)

Lemma marker_fails_without_spelling (c rest : text) :
  starts_with (lit "|  ") rest = false ->
  starts_with (lit "   ") rest = false ->
  marker (mkInput c rest) = Failure.
Proof.
  unfold starts_with, marker, alt, string. cbn [remaining].
  destruct (strip_prefix (lit "|  ") rest); [discriminate|].
  destruct (strip_prefix (lit "   ") rest); [discriminate|]. reflexivity.
Qed.

Lemma marker_failure_spelling i :
  marker i = Failure ->
  starts_with (lit "|  ") (remaining i) = false
  /\ starts_with (lit "   ") (remaining i) = false.
Proof.
  unfold starts_with, marker, alt, string.
  destruct (strip_prefix (lit "|  ") (remaining i)); [discriminate|].
  destruct (strip_prefix (lit "   ") (remaining i)); [discriminate|]. auto.
Qed.

Lemma branch_fails_without_glyph (c rest : text) :
  starts_with (lit "+- ") rest = false ->
  starts_with (lit "\- ") rest = false ->
  branch (mkInput c rest) = Failure.
Proof.
  unfold starts_with, branch, alt, string. cbn [remaining].
  destruct (strip_prefix (lit "+- ") rest); [discriminate|].
  destruct (strip_prefix (lit "\- ") rest); [discriminate|]. reflexivity.
Qed.

(** The loop of [at_least] over markers followed by anything that is no
    marker. *)
Lemma marker_loop_any (ms : list Marker) :
  forall fuel min times acc c rest,
    (forall c', marker (mkInput c' rest) = Failure) ->
    length ms < fuel ->
    times_loop fuel marker min None times acc
      (mkInput c (indent_text ms ++ rest))
    = if min <=? times + length ms
      then Success (acc ++ List.map marker_text ms)
             (mkInput (c ++ indent_text ms) rest)
      else Failure.
Proof.
  induction ms as [|m ms IH]; intros fuel min times acc c rest Hstop Hfuel;
    (destruct fuel as [|fuel]; [simpl in Hfuel; lia|]).
  - cbn [times_loop below indent_text List.map concat app length].
    rewrite Hstop, Nat.add_0_r, !app_nil_r. reflexivity.
  - unfold indent_text. cbn [List.map concat]. fold (indent_text ms).
    cbn [times_loop below]. rewrite <- app_assoc, marker_ok.
    rewrite IH by (auto; simpl in Hfuel; lia).
    cbn [length].
    replace (S times + length ms) with (times + S (length ms)) by lia.
    rewrite <- !app_assoc. reflexivity.
Qed.

Lemma indentation_any (ms : list Marker) (c rest : text) :
  (forall c', marker (mkInput c' rest) = Failure) ->
  indentation (mkInput c (indent_text ms ++ rest))
  = Success (List.map marker_text ms) (mkInput (c ++ indent_text ms) rest).
Proof.
  intros Hstop. unfold indentation, alt, at_least, times.
  rewrite marker_loop_any.
  - destruct ms as [|m ms]; simpl; [|reflexivity].
    unfold success. now rewrite app_nil_r.
  - exact Hstop.
  - cbn [remaining]. rewrite length_app, indent_text_length. lia.
Qed.

Lemma times_loop_reached_min {A} (p : Parser A) :
  forall fuel min times acc i,
    min <= times -> times_loop fuel p min None times acc i <> Failure.
Proof.
  induction fuel as [|fuel IH]; intros min times acc i H; [discriminate|].
  cbn [times_loop below]. destruct (p i) as [v j| |].
  - apply IH. lia.
  - apply Nat.leb_le in H. rewrite H. discriminate.
  - discriminate.
Qed.

Lemma marker_loop_stops :
  forall fuel min times acc i vs i',
    times_loop fuel marker min None times acc i = Success vs i' ->
    marker i' = Failure.
Proof.
  induction fuel as [|fuel IH]; intros min times acc i vs i' H;
    [discriminate H|].
  cbn [times_loop below] in H.
  destruct (marker i) as [v j| |] eqn:M; [| |discriminate H].
  - now apply IH in H.
  - destruct (min <=? times); [|discriminate H]. now inversion H; subst.
Qed.

Lemma at_least_marker_failure i :
  at_least marker 1 i = Failure -> marker i = Failure.
Proof.
  unfold at_least, times. cbn [times_loop below].
  destruct (marker i) as [v j| |] eqn:M; [|reflexivity|discriminate].
  intros H. now apply times_loop_reached_min in H; [|lia].
Qed.

Lemma records_from_app (n : nat) (a b : list Line) :
  records_from n (a ++ b)
  = records_from n a ++ records_from (n + length a) b.
Proof.
  revert n. induction a as [|l a IH]; intros n; simpl.
  - now rewrite Nat.add_0_r.
  - now rewrite IH, Nat.add_succ_r.
Qed.

Lemma records_from_ext (ls : list Line) :
  forall ls' n,
    List.map depth ls = List.map depth ls' ->
    List.map artifact ls = List.map artifact ls' ->
    List.map revision ls = List.map revision ls' ->
    records_from n ls = records_from n ls'.
Proof.
  induction ls as [|l ls IH]; intros [|l' ls'] n Hd Ha Hr;
    try discriminate Hd; [reflexivity|].
  simpl in *. inversion Hd. inversion Ha. inversion Hr.
  unfold record_of. f_equal; [congruence|now apply IH].
Qed.

Lemma count_nl_more_lines (ts : list text) :
  length ts <= count_nl (more_lines ts).
Proof.
  unfold more_lines. induction ts as [|t ts IH]; simpl; [lia|].
  change (S (length ts) <= count_nl ((nl :: t) ++ concat (List.map (cons nl) ts))).
  rewrite count_nl_app. change (count_nl (nl :: t)) with (S (count_nl t)).
  lia.
Qed.

Lemma count_nl_document (root : text) (ls : list Line) (b : bool) :
  length ls <= count_nl (document root ls b).
Proof.
  unfold document. rewrite count_nl_app.
  change (count_nl (nl :: ?x)) with (S (count_nl x)).
  set (opt := if b then [nl] else []).
  change (length ls <=
          count_nl root
          + S (count_nl (join_lines (List.map line_text ls) ++ opt))).
  rewrite count_nl_app. destruct ls as [|l ls]; [simpl; lia|].
  cbn [List.map join_lines length]. rewrite count_nl_app.
  pose proof (count_nl_more_lines (List.map line_text ls)) as H.
  rewrite length_map in H. lia.
Qed.

Lemma segment_char_not_colon (s : text) :
  forallb segment_char s = true -> count_colons s = 0.
Proof.
  unfold count_colons. induction s as [|a s IH]; simpl; [reflexivity|].
  intros H. apply andb_true_iff in H as [Ha Hs].
  destruct (ascii_dec a colon) as [->|_]; [discriminate Ha|auto].
Qed.

Lemma records_from_no_colon (n : nat) (ls : list Line) :
  lines_ok ls = true ->
  Forall (fun r => count_colons (package r) = 0
                   /\ count_colons (version r) = 0)
    (records_from n ls).
Proof.
  revert n. induction ls as [|l ls IH]; intros n H; simpl; [constructor|].
  simpl in H. apply andb_true_iff in H as [Hl H].
  apply line_ok_fields in Hl as (_ & H2 & _ & H4 & _).
  constructor; [|now apply IH].
  split; apply segment_char_not_colon; now apply segment_ok_chars.
Qed.

Lemma line_ok_with_cr (l : Line) : line_ok l = true -> line_ok (with_cr l) = true.
Proof.
  unfold line_ok, with_cr. cbn [group_id artifact packaging revision scope_tail].
  intros H. apply andb_true_iff in H as [H Ht]. rewrite H.
  now rewrite one_line_app, Ht.
Qed.

(** X1.  [pom_tree.parse] returns exactly on the documents made of a
    one-line root label, a line feed, well-formed dependency lines with a
    line feed between them and a last line feed or none; what it returns
    are the triples of those lines, numbered from 2. *)
Theorem pom_tree_accepts_exactly_documents (stream : text)
  (v : list (nat * (Transitivity * text * text))) :
  parse pom_tree stream = Returns v <->
  exists root ls b,
    one_line root = true /\ lines_ok ls = true
    /\ stream = document root ls b /\ v = triples_from 2 ls.
Proof. apply accepted_iff_document. Qed.

Lemma pom_tree_accepts_exactly_documents_witness :
  parse pom_tree (document sample_root [log4j; jna] true)
  = Returns [triple_of 2 log4j; triple_of 3 jna]
  /\ exists root ls b,
       one_line root = true /\ lines_ok ls = true
       /\ document sample_root [log4j; jna] true = document root ls b
       /\ [triple_of 2 log4j; triple_of 3 jna] = triples_from 2 ls.
Proof.
  assert (E : parse pom_tree (document sample_root [log4j; jna] true)
              = Returns [triple_of 2 log4j; triple_of 3 jna])
    by (vm_compute; reflexivity).
  split; [exact E|].
  exact (proj1 (pom_tree_accepts_exactly_documents _ _) E).
Defined.

(** X2.  [tree_line] succeeds exactly when the text at the index is a
    well-formed dependency line followed by a line feed or by the end of
    the stream; it then consumes that line and nothing more, and its line
    number is one more than the number of line feeds before the index. *)
Theorem tree_line_takes_exactly_one_line (c s : text)
  (v : nat * (Transitivity * text * text)) (i' : Input) :
  tree_line (mkInput c s) = Success v i' <->
  exists l r,
    line_ok l = true /\ at_eol r = true
    /\ s = line_text l ++ r
    /\ v = triple_of (count_nl c + 1) l
    /\ i' = mkInput (c ++ line_text l) r.
Proof.
  split.
  - intros H. apply tree_line_inv in H as (l & Hl & He & -> & R & C).
    exists l, (remaining i'). destruct i' as [c' r']. simpl in *.
    subst. auto.
  - intros (l & r & Hl & Hr & -> & -> & ->). now apply tree_line_ok.
Qed.

Lemma tree_line_takes_exactly_one_line_witness :
  tree_line (mkInput sample_root (line_text jna ++ nl :: line_text plexus))
  = Success (triple_of 1 jna)
      (mkInput (sample_root ++ line_text jna) (nl :: line_text plexus))
  /\ exists l r,
       line_ok l = true /\ at_eol r = true
       /\ line_text jna ++ nl :: line_text plexus = line_text l ++ r
       /\ triple_of 1 jna = triple_of (count_nl sample_root + 1) l
       /\ mkInput (sample_root ++ line_text jna) (nl :: line_text plexus)
          = mkInput (sample_root ++ line_text l) r.
Proof.
  assert (E : tree_line
                (mkInput sample_root (line_text jna ++ nl :: line_text plexus))
              = Success (triple_of 1 jna)
                  (mkInput (sample_root ++ line_text jna)
                     (nl :: line_text plexus)))
    by (vm_compute; reflexivity).
  split; [exact E|].
  exact (proj1 (tree_line_takes_exactly_one_line _ _ _ _) E).
Defined.

(** X3.  After the markers a branch glyph is required: a line whose text
    after any number of markers starts neither with a marker nor with a
    glyph is refused by [tree_line], and a document with such a line after
    well-formed ones gives the empty list. *)
Theorem line_without_glyph_rejected (root : text) (ls : list Line)
  (ms : list Marker) (rest r c : text) :
  starts_with (lit "|  ") rest = false ->
  starts_with (lit "   ") rest = false ->
  starts_with (lit "+- ") rest = false ->
  starts_with (lit "\- ") rest = false ->
  one_line root = true -> lines_ok ls = true ->
  one_line rest = true -> is_blank (indent_text ms ++ rest) = false ->
  at_eol r = true ->
  tree_line (mkInput c (indent_text ms ++ rest)) = Failure
  /\ parse_pom_tree
       (Some (root ++ nl
              :: join_lines (List.map line_text ls ++ [indent_text ms ++ rest])
              ++ r))
     = Returns [].
Proof.
  intros M1 M2 G1 G2 Hroot Hls Hrest Hb Hr.
  assert (F : forall c', tree_line (mkInput c' (indent_text ms ++ rest))
                         = Failure).
  { intros c'. unfold tree_line, mark_line, current_line, line_info, map, then_.
    unfold bind at 1. unfold bind at 1. unfold success at 1.
    unfold bind at 1. unfold bind at 1.
    rewrite indentation_any
      by (intros; now apply marker_fails_without_spelling).
    unfold bind at 1. now rewrite branch_fails_without_glyph. }
  split; [apply F|].
  apply bad_line_rejected; auto.
  - now rewrite one_line_app, indent_text_one_line, Hrest.
  - unfold matches_line, skip, bind. now rewrite F.
Qed.

Lemma line_without_glyph_rejected_witness :
  starts_with (lit "|  ") (lit "  +- g:a:jar:1.0:compile") = false
  /\ starts_with (lit "   ") (lit "  +- g:a:jar:1.0:compile") = false
  /\ starts_with (lit "+- ") (lit "  +- g:a:jar:1.0:compile") = false
  /\ starts_with (lit "\- ") (lit "  +- g:a:jar:1.0:compile") = false
  /\ one_line sample_root = true /\ lines_ok [log4j] = true
  /\ one_line (lit "  +- g:a:jar:1.0:compile") = true
  /\ is_blank (indent_text [Bar] ++ lit "  +- g:a:jar:1.0:compile") = false
  /\ at_eol [] = true
  /\ parse_pom_tree
       (Some (sample_root ++ nl
              :: join_lines
                   (List.map line_text [log4j]
                    ++ [indent_text [Bar] ++ lit "  +- g:a:jar:1.0:compile"])
              ++ []))
     = Returns [].
Proof.
  do 9 (split; [reflexivity|]).
  exact (proj2 (line_without_glyph_rejected sample_root [log4j] [Bar]
                  (lit "  +- g:a:jar:1.0:compile") [] []
                  eq_refl eq_refl eq_refl eq_refl eq_refl eq_refl eq_refl
                  eq_refl eq_refl)).
Defined.

(** X4.  The line feed after the first line is required: a text with no
    line feed at all, the empty text included, is rejected by the grammar,
    and [parse_pom_tree] returns the empty list for it. *)
Theorem no_line_feed_rejected (s : text) :
  one_line s = true ->
  parse pom_tree s = Raises ParseError
  /\ parse_pom_tree (Some s) = Returns [].
Proof.
  intros Hs.
  assert (E : parse pom_tree s = Raises ParseError).
  { destruct (parse pom_tree s) as [v|e|] eqn:P.
    - exfalso. apply parse_inv in P as (root & ls & b & _ & _ & ->).
      unfold document in Hs. rewrite one_line_app in Hs.
      apply andb_true_iff in Hs as [_ Hs]. discriminate Hs.
    - now rewrite (parse_raises_only _ _ _ P).
    - now apply parse_never_hangs in P. }
  split; [exact E|exact (rejected_gives_empty _ _ E)].
Qed.

Lemma no_line_feed_rejected_witness :
  (one_line [] = true /\ parse_pom_tree (Some []) = Returns [])
  /\ (one_line (line_text log4j) = true
      /\ parse_pom_tree (Some (line_text log4j)) = Returns []).
Proof.
  split; (split; [reflexivity|]).
  - exact (proj2 (no_line_feed_rejected [] eq_refl)).
  - exact (proj2 (no_line_feed_rejected (line_text log4j) eq_refl)).
Defined.

(** X5.  Of a well-formed document only the depth, the name and the version
    of each line reach the records: two documents whose lines agree on
    these give the same records, whatever their root labels, marker
    spellings, glyphs, groups, packagings, tails and last line feed. *)
Theorem records_depend_on_depth_name_version
  (root root' : text) (ls ls' : list Line) (b b' : bool) :
  one_line root = true -> one_line root' = true ->
  lines_ok ls = true -> lines_ok ls' = true ->
  List.map depth ls = List.map depth ls' ->
  List.map artifact ls = List.map artifact ls' ->
  List.map revision ls = List.map revision ls' ->
  parse_pom_tree (Some (document root ls b))
  = parse_pom_tree (Some (document root' ls' b')).
Proof.
  intros Hroot Hroot' Hls Hls' Hd Ha Hr.
  rewrite !parse_pom_tree_document by assumption.
  f_equal. now apply records_from_ext.
Qed.

Lemma records_depend_on_depth_name_version_witness :
  one_line sample_root = true /\ one_line (lit "other:root:pom:2" ++ [cr]) = true
  /\ lines_ok sample_lines = true
  /\ lines_ok (List.map with_cr sample_lines) = true
  /\ List.map depth sample_lines
     = List.map depth (List.map with_cr sample_lines)
  /\ List.map artifact sample_lines
     = List.map artifact (List.map with_cr sample_lines)
  /\ List.map revision sample_lines
     = List.map revision (List.map with_cr sample_lines)
  /\ parse_pom_tree (Some (document sample_root sample_lines false))
     = parse_pom_tree
         (Some (document (lit "other:root:pom:2" ++ [cr])
                  (List.map with_cr sample_lines) true)).
Proof.
  do 7 (split; [reflexivity|]).
  exact (records_depend_on_depth_name_version sample_root
           (lit "other:root:pom:2" ++ [cr]) sample_lines
           (List.map with_cr sample_lines) false true
           eq_refl eq_refl eq_refl eq_refl eq_refl eq_refl eq_refl).
Defined.

(** X6.  Dependency lines added at the end of a well-formed document leave
    the records of the lines before them as they were and add one record
    each, numbered on from the last. *)
Theorem appended_lines_keep_earlier_records
  (root : text) (ls more : list Line) (b b' : bool) :
  one_line root = true -> lines_ok ls = true -> lines_ok more = true ->
  exists out added,
    parse_pom_tree (Some (document root ls b)) = Returns out
    /\ parse_pom_tree (Some (document root (ls ++ more) b'))
       = Returns (out ++ added)
    /\ length out = length ls /\ length added = length more
    /\ List.map line_number added = seq (2 + length ls) (length more).
Proof.
  intros Hroot Hls Hmore.
  exists (records_from 2 ls), (records_from (2 + length ls) more).
  assert (Hall : lines_ok (ls ++ more) = true).
  { unfold lines_ok in *. now rewrite forallb_app, Hls, Hmore. }
  rewrite !parse_pom_tree_document by assumption.
  rewrite records_from_app, !records_from_length.
  repeat split. apply records_from_fields.
Qed.

Lemma appended_lines_keep_earlier_records_witness :
  one_line sample_root = true /\ lines_ok [log4j; maven_model] = true
  /\ lines_ok [jna] = true
  /\ exists out added,
       parse_pom_tree (Some (document sample_root [log4j; maven_model] true))
       = Returns out
       /\ parse_pom_tree
            (Some (document sample_root ([log4j; maven_model] ++ [jna]) false))
          = Returns (out ++ added)
       /\ List.map line_number added = [4].
Proof.
  do 3 (split; [reflexivity|]).
  destruct (appended_lines_keep_earlier_records sample_root
              [log4j; maven_model] [jna] true false eq_refl eq_refl eq_refl)
    as (out & added & E1 & E2 & _ & _ & N).
  exists out, added. auto.
Defined.

(** X7.  Whatever the file, the records returned are numbered 2, 3, 4, ...
    in order, all have the ecosystem [Maven] and no allowed hash, and there
    are no more of them than line feeds in the file. *)
Theorem every_result_is_numbered_from_two (file : option text)
  (out : list FoundDependency) :
  parse_pom_tree file = Returns out ->
  List.map line_number out = seq 2 (length out)
  /\ Forall (fun r => ecosystem r = Maven /\ allowed_hashes r = []) out
  /\ length out <= match file with
                   | Some stream => count_nl stream
                   | None => 0
                   end.
Proof.
  intros H. destruct file as [stream|].
  - apply returned_records in H
      as [->|(root & ls & b & _ & _ & -> & ->)].
    + repeat split; [constructor|simpl; lia].
    + rewrite records_from_length.
      destruct (records_from_fields 2 ls) as (_ & _ & _ & N & F).
      repeat split; auto. apply count_nl_document.
  - inversion H. repeat split; [constructor|simpl; lia].
Qed.

Lemma every_result_is_numbered_from_two_witness :
  parse_pom_tree (Some (document sample_root sample_lines true))
  = Returns (records_from 2 sample_lines)
  /\ List.map line_number (records_from 2 sample_lines)
     = seq 2 (length (records_from 2 sample_lines))
  /\ length (records_from 2 sample_lines)
     <= count_nl (document sample_root sample_lines true).
Proof.
  assert (E : parse_pom_tree (Some (document sample_root sample_lines true))
              = Returns (records_from 2 sample_lines))
    by (vm_compute; reflexivity).
  destruct (every_result_is_numbered_from_two _ _ E) as (N & _ & B).
  split; [exact E|]. split; [exact N|exact B].
Defined.

(** X8.  Whatever the file, no returned record has a colon in its name or
    in its version: each is what one [upto(":")] took before its colon. *)
Theorem record_fields_hold_no_colon (file : option text)
  (out : list FoundDependency) :
  parse_pom_tree file = Returns out ->
  Forall (fun r => count_colons (package r) = 0
                   /\ count_colons (version r) = 0) out.
Proof.
  intros H. destruct file as [stream|].
  - apply returned_records in H
      as [->|(root & ls & b & _ & Hls & _ & ->)]; [constructor|].
    now apply records_from_no_colon.
  - inversion H. constructor.
Qed.

Lemma record_fields_hold_no_colon_witness :
  parse_pom_tree
    (Some (sample_root ++ nl :: lit "+- g:a:jar:tests:1.0:test"))
  = Returns [mkFoundDependency (lit "a") (lit "tests") Maven [] Direct 2]
  /\ Forall (fun r => count_colons (package r) = 0
                      /\ count_colons (version r) = 0)
       [mkFoundDependency (lit "a") (lit "tests") Maven [] Direct 2].
Proof.
  assert (E : parse_pom_tree
                (Some (sample_root ++ nl :: lit "+- g:a:jar:tests:1.0:test"))
              = Returns
                  [mkFoundDependency (lit "a") (lit "tests") Maven [] Direct 2])
    by (vm_compute; reflexivity).
  split; [exact E|exact (record_fields_hold_no_colon _ _ E)].
Defined.

(** X9.  [indentation] never fails and is greedy: on any input it consumes
    a run of markers, of either spelling, and stops where the text no
    longer starts with a marker; its value has one entry per marker. *)
Theorem indentation_is_greedy (i : Input) :
  exists ms r,
    remaining i = indent_text ms ++ r
    /\ indentation i
       = Success (List.map marker_text ms)
           (mkInput (consumed i ++ indent_text ms) r)
    /\ starts_with (lit "|  ") r = false
    /\ starts_with (lit "   ") r = false.
Proof.
  destruct (indentation i) as [v i'| |] eqn:E.
  - unfold indentation in E. apply alt_inv in E as [H|[F H]].
    + pose proof (marker_loop_stops _ _ _ _ _ _ _ H) as Stop.
      apply marker_loop_inv in H as (ms & -> & R & C).
      apply marker_failure_spelling in Stop as [S1 S2].
      exists ms, (remaining i'). destruct i' as [c' r']. simpl in *.
      subst. auto.
    + inversion H; subst. apply at_least_marker_failure in F.
      apply marker_failure_spelling in F as [S1 S2].
      exists [], (remaining i'). destruct i' as [c' r']. simpl in *.
      rewrite app_nil_r. auto.
  - exfalso. unfold indentation, alt in E.
    destruct (at_least marker 1 i); discriminate E.
  - exfalso. now apply total_indentation in E.
Qed.
